(** * Tick ledger of the concentrated-liquidity module

    A shallow embedding of [x/concentrated-liquidity/tick.go]
    ([initOrUpdateTick], [crossTick], [getTickInfo], [SetTickInfo],
    [validateTickRangeIsValid]) together with the parts of the
    surrounding keeper that these functions call.

    Conventions.
    - Go's [int64], [uint64] and [time.Duration] are [Z]; wrap-around and
      saturation are written out where the code can reach them.
    - [sdk.Dec] is its underlying big integer (the value times 10^18); the
      operations that panic in cosmos-sdk return [None].
    - The keeper's key-value store is a pair of finite maps; a keeper method
      is a function from the store to an outcome and the store it leaves. *)

From Stdlib Require Import ZArith Lia Bool Ascii.
From stdpp Require Import base option list gmap fin_maps strings.

Local Open Scope Z_scope.

(** ** Machine integers and time *)

Definition minInt64 : Z := - 2 ^ 63.
Definition maxInt64 : Z := 2 ^ 63 - 1.

(** Go's conversion [int64(x)] of a [uint64]: the same 64 bits, read as
    two's complement. *)
Definition int64_of_uint64 (x : Z) : Z :=
  if x <? 2 ^ 63 then x else x - 2 ^ 64.

(** [t.Sub(u)] of package [time]: the difference as a [Duration] in
    nanoseconds, saturating at the ends of [int64]. Instants are counted in
    nanoseconds. *)
Definition time_Sub (t u : Z) : Z :=
  Z.max minInt64 (Z.min maxInt64 (t - u)).

(** ** [sdk.Dec] *)

Module Dec.

Definition Precision : Z := 18.
Definition precisionReuse : Z := 10 ^ Precision.
Definition fivePrecision : Z := precisionReuse / 2.
Definition maxBitLen : Z := 256.
Definition DecimalPrecisionBits : Z := 60.
Definition maxDecBitLen : Z := maxBitLen + DecimalPrecisionBits.

(** [big.Int.BitLen]: the length of the absolute value in bits. *)
Definition BitLen (i : Z) : Z :=
  if i =? 0 then 0 else Z.log2 (Z.abs i) + 1.

(** A result above [maxDecBitLen] bits is the panic "Int overflow". *)
Definition checked (i : Z) : option Z :=
  if BitLen i <=? maxDecBitLen then Some i else None.

Definition ZeroDec : Z := 0.
Definition Equal (d d2 : Z) : bool := d =? d2.
Definition LT (d d2 : Z) : bool := d <? d2.
Definition Abs (d : Z) : Z := Z.abs d.
Definition Add (d d2 : Z) : option Z := checked (d + d2).
Definition Sub (d d2 : Z) : option Z := checked (d - d2).

(** [chopPrecisionAndRound]: divide by 10^18 with banker's rounding,
    through the absolute value. *)
Definition chopPositive (d : Z) : Z :=
  let quo := Z.quot d precisionReuse in
  let rem := Z.rem d precisionReuse in
  if rem =? 0 then quo
  else match rem ?= fivePrecision with
       | Lt => quo
       | Gt => quo + 1
       | Eq => if Z.even quo then quo else quo + 1
       end.

Definition chopPrecisionAndRound (d : Z) : Z :=
  if d <? 0 then - chopPositive (- d) else chopPositive d.

(** [d.Quo(d2)]: [big.Int.Quo] truncates towards zero and panics on a
    zero divisor. *)
Definition Quo (d d2 : Z) : option Z :=
  if d2 =? 0 then None
  else checked (chopPrecisionAndRound (Z.quot (d * precisionReuse * precisionReuse) d2)).

(** [d.Unmarshal]: a decimal of more than [maxBitLen] bits is written by
    [Marshal] without complaint and refused when it is read back
    ("decimal out of range"). *)
Definition Unmarshals (d : Z) : bool := BitLen d <=? maxBitLen.

(** The decimal whose value is the integer [n]. *)
Definition ofInt (n : Z) : Z := n * precisionReuse.

End Dec.

Abbreviation Dec := Z (only parsing).

(** ** Errors of package [types] *)

Inductive Error : Type :=
| PoolNotFoundError (PoolId : Z)
| TickSpacingError (LowerTick UpperTick TickSpacing : Z)
| InvalidTickError (Tick : Z) (IsLower : bool)
| InvalidLowerUpperTickError (LowerTick UpperTick : Z)
| InitialLiquidityZeroError (Amount0 Amount1 : Z)
| InsufficientLiquidityCreatedError (Actual Minimum : Z) (IsTokenZero : bool)
| ZeroLiquidityDeltaError
| PositionNotFoundError (PoolId LowerTick UpperTick : Z)
| InsufficientLiquidityError (Actual Available : Dec)
| UnmarshalError.

(** What a call does: return a value, return an error, or panic. *)
Inductive Outcome (A : Type) : Type :=
| Returned (a : A)
| Failed (e : Error)
| Panicked.

Arguments Returned {A} a.
Arguments Failed {A} e.
Arguments Panicked {A}.

(** ** Data model (package [model]) *)

Record TickIncentivizedLiquidityRecord : Type := {
  ID : Z;
  IncentivizedLiquidityGross : Dec;
  IncentivizedLiquidityNet : Dec;
  SecondsPerIncentivizedLiquidityOutside : Dec
}.

Record TickInfo : Type := {
  LiquidityGross : Dec;
  LiquidityNet : Dec;
  SecondsInactive : Z;
  TickIncentivizedLiquidityRecords : list TickIncentivizedLiquidityRecord
}.

Record PoolIncentivizedLiquidityRecord : Type := {
  PoolRecordID : Z;
  SecondsPerIncentivizedLiquidityGlobal : Dec
}.

Record Pool : Type := {
  TimeOfCreation : Z;
  TickSpacing : Z;
  CurrentTick : Z;
  CurrentSqrtPrice : Dec;
  PoolIncentivizedLiquidityRecords : list PoolIncentivizedLiquidityRecord
}.

(** Key of a position: pool, owner, lower tick, upper tick, incentivized. *)
Definition PositionKey : Type := Z * string * Z * Z * bool.

(** The keeper's store and the block time of the context. *)
Record State : Type := {
  BlockTime : Z;
  pools : gmap Z Pool;
  ticks : gmap (Z * Z) TickInfo;
  positions : gmap PositionKey Dec
}.

Definition setTicks (s : State) (t : gmap (Z * Z) TickInfo) : State :=
  {| BlockTime := BlockTime s; pools := pools s; ticks := t;
     positions := positions s |}.

Definition setPools (s : State) (p : gmap Z Pool) : State :=
  {| BlockTime := BlockTime s; pools := p; ticks := ticks s;
     positions := positions s |}.

Definition setPositions (s : State) (p : gmap PositionKey Dec) : State :=
  {| BlockTime := BlockTime s; pools := pools s; ticks := ticks s;
     positions := p |}.

(** ** Keeper methods as store transformers *)

Definition Keeper (A : Type) : Type := State -> Outcome A * State.

Definition ret {A} (a : A) : Keeper A := fun s => (Returned a, s).
Definition fail {A} (e : Error) : Keeper A := fun s => (Failed e, s).
Definition panic {A} : Keeper A := fun s => (Panicked, s).

Definition bind {A B} (m : Keeper A) (k : A -> Keeper B) : Keeper B :=
  fun s =>
    match m s with
    | (Returned a, s') => k a s'
    | (Failed e, s') => (Failed e, s')
    | (Panicked, s') => (Panicked, s')
    end.

(** A [sdk.Dec] or slice operation that may panic. *)
Definition orPanic {A} (o : option A) : Keeper A :=
  match o with
  | Some a => ret a
  | None => panic
  end.

Declare Scope keeper_scope.
Delimit Scope keeper_scope with keeper.
Notation "x <- m ;; k" := (bind m (fun x => k))
  (at level 100, m at next level, right associativity) : keeper_scope.
Notation "m ;;; k" := (bind m (fun _ => k))
  (at level 100, right associativity) : keeper_scope.

(** Modelled from the spec: [poolExists] of pool.go, which is not among the
    sources; a pool id either has a registered pool or not. *)
Definition poolExists (s : State) (poolId : Z) : bool :=
  bool_decide (is_Some (pools s !! poolId)).

(** Modelled from the spec: [getPoolById] of pool.go, which is not among the
    sources; it fails with [PoolNotFoundError] when no pool is registered. *)
Definition getPoolById (poolId : Z) : Keeper Pool :=
  fun s =>
    match pools s !! poolId with
    | Some pool => (Returned pool, s)
    | None => (Failed (PoolNotFoundError poolId), s)
    end.

(** Modelled from the spec: [setPool] of pool.go, which is not among the
    sources; an unconditional overwrite of the pool's record. *)
Definition setPool (poolId : Z) (pool : Pool) : Keeper unit :=
  fun s => (Returned tt, setPools s (<[poolId := pool]> (pools s))).

(** Whether the bytes [MustSet] wrote for a tick decode again: every
    [sdk.Dec] of the tick and of its records must unmarshal. *)
Definition recordUnmarshals (r : TickIncentivizedLiquidityRecord) : bool :=
  Dec.Unmarshals (IncentivizedLiquidityGross r)
  && Dec.Unmarshals (IncentivizedLiquidityNet r)
  && Dec.Unmarshals (SecondsPerIncentivizedLiquidityOutside r).

Definition tickUnmarshals (tickInfo : TickInfo) : bool :=
  Dec.Unmarshals (LiquidityGross tickInfo)
  && Dec.Unmarshals (LiquidityNet tickInfo)
  && forallb recordUnmarshals (TickIncentivizedLiquidityRecords tickInfo).

(** [getTickInfo]: zero values when the key has not been initialized, and
    the error of [osmoutils.Get] when the stored bytes do not decode. The
    store keeps each tick as it was written. *)
Definition getTickInfo (poolId tickIndex : Z) : Keeper TickInfo :=
  fun s =>
    if negb (poolExists s poolId) then
      (Failed (PoolNotFoundError poolId), s)
    else
      match ticks s !! (poolId, tickIndex) with
      | None =>
          (Returned {| LiquidityGross := Dec.ZeroDec;
                       LiquidityNet := Dec.ZeroDec;
                       SecondsInactive := 0;
                       TickIncentivizedLiquidityRecords := [] |}, s)
      | Some tickStruct =>
          if tickUnmarshals tickStruct then (Returned tickStruct, s)
          else (Failed UnmarshalError, s)
      end.

(** What [getTickInfo] reads at a key of an existing pool when the stored
    bytes decode. *)
Definition tickOrZero (s : State) (poolId tickIndex : Z) : TickInfo :=
  default {| LiquidityGross := Dec.ZeroDec;
             LiquidityNet := Dec.ZeroDec;
             SecondsInactive := 0;
             TickIncentivizedLiquidityRecords := [] |}
          (ticks s !! (poolId, tickIndex)).

Definition SetTickInfo (poolId tickIndex : Z) (tickInfo : TickInfo) : Keeper unit :=
  fun s => (Returned tt, setTicks s (<[(poolId, tickIndex) := tickInfo]> (ticks s))).

(** ** tick.go *)

Section TickLedger.

(** [types.MinTick] and [types.MaxTick]: the constants are declared
    outside the sources. *)
Variables MinTick MaxTick : Z.

(** [sdk.MustNewDecFromStr(fmt.Sprintf("%f", d.Seconds()))] for a duration
    [d]: the float formatting is taken as given. *)
Variable secondsDec : Z -> Dec.

(** Whether [GetPoolIncentivizedLiquidityRecords] yields a slice of
    pointers ([true]) or of values ([false]); the declaration is outside
    the sources. The tick's records are values (they are appended as
    struct literals). *)
Variable poolRecordsByPointer : bool.

(** Modelled from the spec: [math.AddLiquidity] of internal/math, which is
    not among the sources; adding negative liquidity is a subtraction. *)
Definition AddLiquidity (liquidityA liquidityB : Dec) : option Dec :=
  if Dec.LT liquidityB Dec.ZeroDec then Dec.Sub liquidityA (Dec.Abs liquidityB)
  else Dec.Add liquidityA liquidityB.

(** The record appended for an incentive the tick does not know yet. *)
Definition newTickRecord (id : Z) : TickIncentivizedLiquidityRecord :=
  {| ID := id;
     IncentivizedLiquidityGross := Dec.ZeroDec;
     IncentivizedLiquidityNet := Dec.ZeroDec;
     SecondsPerIncentivizedLiquidityOutside := Dec.ZeroDec |}.

(** Lines 67-73: one zero record per record of the pool. *)
Fixpoint appendNewRecords (tickRecords : list TickIncentivizedLiquidityRecord)
    (poolRecords : list PoolIncentivizedLiquidityRecord)
    : list TickIncentivizedLiquidityRecord :=
  match poolRecords with
  | [] => tickRecords
  | record :: rest =>
      appendNewRecords (tickRecords ++ [newTickRecord (PoolRecordID record)]) rest
  end.

(** Lines 80-90: the loop that builds [newTickIncentivizedLiquidityRecords]
    from index [i] on. [None] is the index-out-of-range panic of
    [tickInfo.TickIncentivizedLiquidityRecords[i]]. *)
Fixpoint buildNewTickRecords (tickRecords : list TickIncentivizedLiquidityRecord)
    (i : nat) (poolRecords : list PoolIncentivizedLiquidityRecord)
    (newTickRecords : list TickIncentivizedLiquidityRecord)
    : option (list TickIncentivizedLiquidityRecord) :=
  match poolRecords with
  | [] => Some newTickRecords
  | record :: rest =>
      match tickRecords !! i with
      | None => None
      | Some tickRecord =>
          if ID tickRecord =? PoolRecordID record then
            buildNewTickRecords tickRecords (S i) rest (newTickRecords ++ [tickRecord])
          else
            buildNewTickRecords tickRecords (S i) rest
              (tickRecords ++ [newTickRecord (PoolRecordID record)])
      end
  end.

(** Lines 96-103: the update of one record of the tick. *)
Definition updateTickRecord (liquidityIn : Dec) (upper : bool)
    (r : TickIncentivizedLiquidityRecord) : option TickIncentivizedLiquidityRecord :=
  incentivizedLiquidityAfter ← AddLiquidity (IncentivizedLiquidityGross r) liquidityIn;
  net ← (if upper then Dec.Sub (IncentivizedLiquidityNet r) liquidityIn
         else Dec.Add (IncentivizedLiquidityNet r) liquidityIn);
  Some {| ID := ID r;
          IncentivizedLiquidityGross := incentivizedLiquidityAfter;
          IncentivizedLiquidityNet := net;
          SecondsPerIncentivizedLiquidityOutside :=
            SecondsPerIncentivizedLiquidityOutside r |}.

(** Lines 94-105: the loop over [incentiveIDsCommittedTo] from index [i]
    on. [None] is a panic: index out of range, or an overflow of
    [sdk.Dec]. *)
Fixpoint updateCommittedRecords (liquidityIn : Dec) (upper : bool) (i : nat)
    (incentiveIDsCommittedTo : list Z)
    (tickRecords : list TickIncentivizedLiquidityRecord)
    : option (list TickIncentivizedLiquidityRecord) :=
  match incentiveIDsCommittedTo with
  | [] => Some tickRecords
  | incentiveID :: rest =>
      match tickRecords !! i with
      | None => None
      | Some r =>
          if ID r =? incentiveID then
            match updateTickRecord liquidityIn upper r with
            | None => None
            | Some r' =>
                updateCommittedRecords liquidityIn upper (S i) rest (<[i := r']> tickRecords)
            end
          else updateCommittedRecords liquidityIn upper (S i) rest tickRecords
      end
  end.

(** Lines 62-91: the tick's record list after the reconciliation with the
    pool's list. The list built in the second branch is never stored in
    [tickInfo]; only its panic is observable. *)
Definition reconcileTickRecords (pool : Pool)
    (tickRecords : list TickIncentivizedLiquidityRecord)
    : option (list TickIncentivizedLiquidityRecord) :=
  if (length tickRecords =? 0)%nat then
    Some (appendNewRecords tickRecords (PoolIncentivizedLiquidityRecords pool))
  else if negb (length (PoolIncentivizedLiquidityRecords pool) =? length tickRecords)%nat then
    match buildNewTickRecords tickRecords 0 (PoolIncentivizedLiquidityRecords pool) [] with
    | None => None
    | Some _ => Some tickRecords
    end
  else Some tickRecords.

Local Open Scope keeper_scope.

(** [initOrUpdateTick]. The [fmt.Printf] of line 45 writes to standard
    output only. *)
Definition initOrUpdateTick (poolId tickIndex : Z) (liquidityIn : Dec)
    (upper : bool) (incentiveIDsCommittedTo : list Z) : Keeper unit :=
  fun s =>
    if negb (poolExists s poolId) then (Failed (PoolNotFoundError poolId), s)
    else
      (tickInfo <- getTickInfo poolId tickIndex ;;
       pool <- getPoolById poolId ;;
       let secondsInactive :=
         if Dec.Equal (LiquidityGross tickInfo) Dec.ZeroDec
            && Dec.Equal (LiquidityNet tickInfo) Dec.ZeroDec
         then time_Sub (BlockTime s) (TimeOfCreation pool)
         else SecondsInactive tickInfo in
       liquidityAfter <- orPanic (AddLiquidity (LiquidityGross tickInfo) liquidityIn) ;;
       liquidityNet <- orPanic (if upper then Dec.Sub (LiquidityNet tickInfo) liquidityIn
                                else Dec.Add (LiquidityNet tickInfo) liquidityIn) ;;
       reconciled <- orPanic (reconcileTickRecords pool
                                (TickIncentivizedLiquidityRecords tickInfo)) ;;
       records <- orPanic (updateCommittedRecords liquidityIn upper 0
                             incentiveIDsCommittedTo reconciled) ;;
       SetTickInfo poolId tickIndex
         {| LiquidityGross := liquidityAfter;
            LiquidityNet := liquidityNet;
            SecondsInactive := secondsInactive;
            TickIncentivizedLiquidityRecords := records |}) s.

(** Lines 130-132: each iteration divides and assigns to the loop
    variable, a copy of the slice element; only the panic of [Quo] is
    observable. *)
Fixpoint secondsPerLiquidityLoop (secondsInactive : Z)
    (tickRecords : list TickIncentivizedLiquidityRecord) : option unit :=
  match tickRecords with
  | [] => Some tt
  | tickIncentivizedLiquidityRecord :: rest =>
      match Dec.Quo (secondsDec secondsInactive)
              (IncentivizedLiquidityGross tickIncentivizedLiquidityRecord) with
      | None => None
      | Some _ => secondsPerLiquidityLoop secondsInactive rest
      end
  end.

(** Lines 137-139: the loop over the pool's records from index [i] on.
    The sum is assigned to the loop variable: it reaches the pool's record
    only when the slice holds pointers. [None] is a panic: index out of
    range in the tick's records, or an overflow of [sdk.Dec]. *)
Fixpoint globalSecondsLoop (tickRecords : list TickIncentivizedLiquidityRecord)
    (i : nat) (poolRecords : list PoolIncentivizedLiquidityRecord)
    : option (list PoolIncentivizedLiquidityRecord) :=
  match poolRecords with
  | [] => Some []
  | poolRecord :: rest =>
      match tickRecords !! i with
      | None => None
      | Some tickRecord =>
          match Dec.Add (SecondsPerIncentivizedLiquidityGlobal poolRecord)
                  (SecondsPerIncentivizedLiquidityOutside tickRecord) with
          | None => None
          | Some sum =>
              let stored :=
                if poolRecordsByPointer then
                  {| PoolRecordID := PoolRecordID poolRecord;
                     SecondsPerIncentivizedLiquidityGlobal := sum |}
                else poolRecord in
              match globalSecondsLoop tickRecords (S i) rest with
              | None => None
              | Some rest' => Some (stored :: rest')
              end
          end
      end
  end.

Definition SetPoolIncentivizedLiquidityRecords (pool : Pool)
    (records : list PoolIncentivizedLiquidityRecord) : Pool :=
  {| TimeOfCreation := TimeOfCreation pool;
     TickSpacing := TickSpacing pool;
     CurrentTick := CurrentTick pool;
     CurrentSqrtPrice := CurrentSqrtPrice pool;
     PoolIncentivizedLiquidityRecords := records |}.

(** [crossTick]. *)
Definition crossTick (poolId tickIndex : Z) : Keeper Dec :=
  fun s =>
    (tickInfo0 <- getTickInfo poolId tickIndex ;;
     pool <- getPoolById poolId ;;
     let newSecondsInactive := time_Sub (BlockTime s) (TimeOfCreation pool) in
     let tickInfo :=
       {| LiquidityGross := LiquidityGross tickInfo0;
          LiquidityNet := LiquidityNet tickInfo0;
          SecondsInactive := newSecondsInactive;
          TickIncentivizedLiquidityRecords := TickIncentivizedLiquidityRecords tickInfo0 |} in
     orPanic (secondsPerLiquidityLoop (SecondsInactive tickInfo)
                (TickIncentivizedLiquidityRecords tickInfo)) ;;;
     SetTickInfo poolId tickIndex tickInfo ;;;
     poolIncentivizedLiquidityRecords <-
       orPanic (globalSecondsLoop (TickIncentivizedLiquidityRecords tickInfo) 0
                  (PoolIncentivizedLiquidityRecords pool)) ;;
     setPool poolId (SetPoolIncentivizedLiquidityRecords pool poolIncentivizedLiquidityRecords) ;;;
     ret (LiquidityNet tickInfo)) s.

(** [validateTickRangeIsValid]. Go's [%] truncates towards zero ([Z.rem])
    and panics on a zero divisor. *)
Definition validateTickRangeIsValid (tickSpacing lowerTick upperTick : Z) : Outcome unit :=
  let spacing := int64_of_uint64 tickSpacing in
  if spacing =? 0 then Panicked
  else if negb (Z.rem lowerTick spacing =? 0) || negb (Z.rem upperTick spacing =? 0) then
    Failed (TickSpacingError lowerTick upperTick tickSpacing)
  else if (lowerTick <? MinTick) || (lowerTick >=? MaxTick) then
    Failed (InvalidTickError lowerTick true)
  else if (upperTick >? MaxTick) || (upperTick <=? MinTick) then
    Failed (InvalidTickError upperTick false)
  else if lowerTick >=? upperTick then
    Failed (InvalidLowerUpperTickError lowerTick upperTick)
  else Returned tt.

End TickLedger.

(** ** Position manager *)

Section PositionManager.

Variables MinTick MaxTick : Z.
Variable secondsDec : Z -> Dec.
Variable poolRecordsByPointer : bool.

(** The pricing-math collaborator: from the pool, the range and the
    desired amounts to the liquidity and the actual amounts; from the
    pool, the range and a liquidity to the amounts it is worth. *)
Variable liquidityAndAmounts : Pool -> Z -> Z -> Z -> Z -> Dec * Z * Z.
Variable amountsOfLiquidity : Pool -> Z -> Z -> Dec -> Z * Z.

Definition positionKey (poolId : Z) (owner : string) (lowerTick upperTick : Z)
    (incentiveIDs : list Z) : PositionKey :=
  (poolId, owner, lowerTick, upperTick, bool_decide (incentiveIDs ≠ [])).

(** Step 5 of both operations: the delta goes to the lower tick with
    [upper = false] and to the upper tick with [upper = true]. *)
Definition updateBoundaryTicks (poolId lowerTick upperTick : Z) (liquidityDelta : Dec)
    (incentiveIDs : list Z) : Keeper unit :=
  (initOrUpdateTick poolId lowerTick liquidityDelta false incentiveIDs ;;;
   initOrUpdateTick poolId upperTick liquidityDelta true incentiveIDs)%keeper.

(** Modelled from the spec: [createPosition] of lp.go, which is not among
    the sources. Steps 1 to 5 and 7 of section 4.4; the custody transfer
    of step 6 belongs to a collaborator and writes neither ticks nor
    positions. A failure or panic leaves the store as it was found. *)
Definition createPosition (poolId : Z) (owner : string)
    (amount0Desired amount1Desired amount0Min amount1Min lowerTick upperTick : Z)
    (incentiveIDs : list Z) : Keeper (Z * Z * Dec) :=
  fun s =>
    match pools s !! poolId with
    | None => (Failed (PoolNotFoundError poolId), s)
    | Some pool =>
        match validateTickRangeIsValid MinTick MaxTick (TickSpacing pool) lowerTick upperTick with
        | Panicked => (Panicked, s)
        | Failed e => (Failed e, s)
        | Returned _ =>
            let first := (CurrentTick pool =? 0) && Dec.Equal (CurrentSqrtPrice pool) Dec.ZeroDec in
            let '(liquidityDelta, amount0, amount1) :=
              liquidityAndAmounts pool lowerTick upperTick amount0Desired amount1Desired in
            if first && ((amount0Desired <=? 0) || (amount1Desired <=? 0)) then
              (Failed (InitialLiquidityZeroError amount0Desired amount1Desired), s)
            else if negb first && (amount0 <? amount0Min) then
              (Failed (InsufficientLiquidityCreatedError amount0 amount0Min true), s)
            else if negb first && (amount1 <? amount1Min) then
              (Failed (InsufficientLiquidityCreatedError amount1 amount1Min false), s)
            else if negb first && Dec.Equal liquidityDelta Dec.ZeroDec then
              (Failed ZeroLiquidityDeltaError, s)
            else
              match updateBoundaryTicks poolId lowerTick upperTick liquidityDelta incentiveIDs s with
              | (Panicked, _) => (Panicked, s)
              | (Failed e, _) => (Failed e, s)
              | (Returned _, s') =>
                  let key := positionKey poolId owner lowerTick upperTick incentiveIDs in
                  match Dec.Add (default Dec.ZeroDec (positions s' !! key)) liquidityDelta with
                  | None => (Panicked, s)
                  | Some liquidity =>
                      (Returned (amount0, amount1, liquidityDelta),
                       setPositions s' (<[key := liquidity]> (positions s')))
                  end
              end
        end
    end.

(** Modelled from the spec: [withdrawPosition] of lp.go, which is not among
    the sources. The same validation, the position's checks, the negated
    delta through [initOrUpdateTick], and the position reduced, or removed
    at zero. A failure or panic leaves the store as it was found. *)
Definition withdrawPosition (poolId : Z) (owner : string) (lowerTick upperTick : Z)
    (liquidityAmount : Dec) (incentiveIDs : list Z) : Keeper (Z * Z) :=
  fun s =>
    match pools s !! poolId with
    | None => (Failed (PoolNotFoundError poolId), s)
    | Some pool =>
        match validateTickRangeIsValid MinTick MaxTick (TickSpacing pool) lowerTick upperTick with
        | Panicked => (Panicked, s)
        | Failed e => (Failed e, s)
        | Returned _ =>
            let key := positionKey poolId owner lowerTick upperTick incentiveIDs in
            match positions s !! key with
            | None => (Failed (PositionNotFoundError poolId lowerTick upperTick), s)
            | Some available =>
                if available <? liquidityAmount then
                  (Failed (InsufficientLiquidityError liquidityAmount available), s)
                else
                  match updateBoundaryTicks poolId lowerTick upperTick (- liquidityAmount)
                          incentiveIDs s with
                  | (Panicked, _) => (Panicked, s)
                  | (Failed e, _) => (Failed e, s)
                  | (Returned _, s') =>
                      let remaining := available - liquidityAmount in
                      (Returned (amountsOfLiquidity pool lowerTick upperTick liquidityAmount),
                       setPositions s'
                         (if remaining =? 0 then delete key (positions s')
                          else <[key := remaining]> (positions s')))
                  end
            end
        end
    end.

(** The sum of [LiquidityNet] over the initialized ticks of a pool. *)
Definition addNetOf (poolId : Z) (key : Z * Z) (tickInfo : TickInfo) (acc : Z) : Z :=
  if bool_decide (key.1 = poolId) then LiquidityNet tickInfo + acc else acc.

Definition liquidityNetSum (s : State) (poolId : Z) : Z :=
  map_fold (addNetOf poolId) 0 (ticks s).

(** One step of the ledger's life: a position is created or withdrawn, a
    tick is crossed, or the rest of the chain moves on (a new block, a
    pool registered or repriced) without writing ticks or positions. *)
Inductive step : State -> State -> Prop :=
| step_create poolId owner a0 a1 m0 m1 lowerTick upperTick ids r s s' :
    createPosition poolId owner a0 a1 m0 m1 lowerTick upperTick ids s = (Returned r, s') ->
    step s s'
| step_withdraw poolId owner lowerTick upperTick liquidityAmount ids r s s' :
    withdrawPosition poolId owner lowerTick upperTick liquidityAmount ids s = (Returned r, s') ->
    step s s'
| step_cross poolId tickIndex r s s' :
    crossTick secondsDec poolRecordsByPointer poolId tickIndex s = (Returned r, s') ->
    step s s'
| step_chain s s' :
    ticks s' = ticks s -> positions s' = positions s -> step s s'.

(** The stores the ledger can be in: no tick and no position to begin
    with, whatever the pools, then any number of steps. *)
Inductive reachable : State -> Prop :=
| reachable_init s : ticks s = ∅ -> positions s = ∅ -> reachable s
| reachable_step s s' : reachable s -> step s s' -> reachable s'.

End PositionManager.

(** ** cometbft/metrics/metrics.go *)

(** [strings.TrimRight(s, cutset)] for a cutset of one ASCII byte, as both
    calls of [GetValues] use it: the trailing bytes equal to it removed. *)
Fixpoint TrimRight (s : string) (cutset : Ascii.ascii) : string :=
  match s with
  | EmptyString => EmptyString
  | String c rest =>
      match TrimRight rest cutset with
      | EmptyString => if Ascii.eqb c cutset then EmptyString else String c EmptyString
      | trimmed => String c trimmed
      end
  end.

(** Whether the byte [c] occurs in [s]. *)
Fixpoint hasByte (c : Ascii.ascii) (s : string) : bool :=
  match s with
  | EmptyString => false
  | String c' rest => Ascii.eqb c' c || hasByte c rest
  end.

Section MetricsRegistry.

(** [float64]: the zero value, [+], [== 0] and [fmt.Sprintf("%.18f", _)]
    of floats are taken as given. *)
Variable float64 : Type.
Variable zeroFloat : float64.
Variable addFloat : float64 -> float64 -> float64.
Variable isZeroFloat : float64 -> bool.
Variable sprintf18f : float64 -> string.

(** [Metrics], without its mutex: every method holds the lock from entry
    to return, so a method is one step. *)
Record Metrics : Type := { values : gmap string (gmap string float64) }.

Definition newMetrics : Metrics := {| values := ∅ |}.

(** [m.values[ip][name]], when both keys are present. *)
Definition valueAt (m : Metrics) (ip name : string) : option float64 :=
  values m !! ip ≫= fun labels : gmap string float64 => labels !! name.

(** [Instance], over the package variable [instance] ([None] is nil):
    the instance returned and the variable as the call leaves it. The
    result is a pointer to the variable's object. *)
Definition Instance (instance : option Metrics) : Metrics * option Metrics :=
  match instance with
  | None => (newMetrics, Some newMetrics)
  | Some m => (m, Some m)
  end.

(** [RecordValue]: the inner map is made on first use of [ip]; a missing
    [name] reads as the zero value. *)
Definition RecordValue (ip name : string) (value : float64) (m : Metrics) : Metrics :=
  let labels := default ∅ (values m !! ip) in
  {| values :=
       <[ip := <[name := addFloat (default zeroFloat (labels !! name)) value]> labels]>
         (values m) |}.

(** Lines 54-61: the string stored for a value. *)
Definition formatValue (value : float64) : string :=
  TrimRight (TrimRight (sprintf18f value) "0"%char) "."%char.

(** [GetValues]: an entry for every key of [values]; zero values are
    skipped. *)
Definition GetValues (m : Metrics) : gmap string (gmap string string) :=
  (fun labels : gmap string float64 =>
     omap (fun value => if isZeroFloat value then None else Some (formatValue value)) labels)
    <$> values m.

(** [Metrics] of package core (rpc): the values of the instance and a nil
    error, over the package variable. *)
Definition core_Metrics (instance : option Metrics)
    : (gmap string (gmap string string) * option Error) * option Metrics :=
  let '(m, instance') := Instance instance in
  ((GetValues m, None), instance').

(** A call [Instance().RecordValue(ip, name, value)], over the package
    variable: the method writes through the pointer. *)
Definition recordInInstance (ip name : string) (value : float64)
    (instance : option Metrics) : option Metrics :=
  let '(m, _) := Instance instance in
  Some (RecordValue ip name value m).

(** The values recorded under [ip] and [name] in a list of calls, oldest
    first. *)
Definition recordedFor (ip name : string) (calls : list (string * string * float64))
    : list float64 :=
  omap (fun call : string * string * float64 =>
          if bool_decide (call.1.1 = ip /\ call.1.2 = name) then Some call.2 else None)
       calls.

Definition recordAll (calls : list (string * string * float64))
    (instance : option Metrics) : option Metrics :=
  foldl (fun inst (call : string * string * float64) =>
           recordInInstance call.1.1 call.1.2 call.2 inst)
        instance calls.

End MetricsRegistry.

Arguments values {float64} m.
Arguments valueAt {float64} m ip name.
Arguments Instance {float64} instance.
Arguments RecordValue {float64} zeroFloat addFloat ip name value m.
Arguments formatValue {float64} sprintf18f value.
Arguments GetValues {float64} isZeroFloat sprintf18f m.
Arguments core_Metrics {float64} isZeroFloat sprintf18f instance.
Arguments recordInInstance {float64} zeroFloat addFloat ip name value instance.
Arguments recordedFor {float64} ip name calls.
Arguments recordAll {float64} zeroFloat addFloat calls instance.

(** ** The test helpers of package concentrated_liquidity_test *)

Section LpTest.

(** The values of Go's [error] interface; [None] is nil. *)
Variable error : Type.

(** [lpTest]. A nil [sdk.Int] or [sdk.Dec] and a nil slice are [None]. *)
Record lpTest : Type := {
  poolId : Z;
  owner : string;
  currentTick : option Z;
  lowerTick : Z;
  upperTick : Z;
  currentSqrtP : option Dec;
  amount0Desired : option Z;
  amount0Minimum : option Z;
  amount0Expected : option Z;
  amount1Desired : option Z;
  amount1Minimum : option Z;
  amount1Expected : option Z;
  liquidityAmount : option Dec;
  tickSpacing : Z;
  incentiveIDsCommittedTo : option (list Z);
  isNotFirstPosition : bool;
  expectedError : option error
}.

(** [x] unless it is [None]. *)
Definition orKeep {A} (x old : option A) : option A :=
  match x with
  | Some _ => x
  | None => old
  end.

(** [mergeConfigs]: the value [dst] points to after the call. *)
Definition mergeConfigs (dst : lpTest) (overwrite : option lpTest) : lpTest :=
  match overwrite with
  | None => dst
  | Some overwrite =>
      {| poolId := if poolId overwrite =? 0 then poolId dst else poolId overwrite;
         owner := owner dst;
         currentTick := currentTick dst;
         lowerTick := if lowerTick overwrite =? 0 then lowerTick dst else lowerTick overwrite;
         upperTick := if upperTick overwrite =? 0 then upperTick dst else upperTick overwrite;
         currentSqrtP := currentSqrtP dst;
         amount0Desired := orKeep (amount0Desired overwrite) (amount0Desired dst);
         amount0Minimum := orKeep (amount0Minimum overwrite) (amount0Minimum dst);
         amount0Expected := orKeep (amount0Expected overwrite) (amount0Expected dst);
         amount1Desired := orKeep (amount1Desired overwrite) (amount1Desired dst);
         amount1Minimum := orKeep (amount1Minimum overwrite) (amount1Minimum dst);
         amount1Expected := orKeep (amount1Expected overwrite) (amount1Expected dst);
         liquidityAmount := orKeep (liquidityAmount overwrite) (liquidityAmount dst);
         tickSpacing :=
           if tickSpacing overwrite =? 0 then tickSpacing dst else tickSpacing overwrite;
         incentiveIDsCommittedTo :=
           orKeep (incentiveIDsCommittedTo overwrite) (incentiveIDsCommittedTo dst);
         isNotFirstPosition :=
           if isNotFirstPosition overwrite then true else isNotFirstPosition dst;
         expectedError := orKeep (expectedError overwrite) (expectedError dst) |}
  end.

End LpTest.

Arguments poolId {error} _.
Arguments owner {error} _.
Arguments currentTick {error} _.
Arguments lowerTick {error} _.
Arguments upperTick {error} _.
Arguments currentSqrtP {error} _.
Arguments amount0Desired {error} _.
Arguments amount0Minimum {error} _.
Arguments amount0Expected {error} _.
Arguments amount1Desired {error} _.
Arguments amount1Minimum {error} _.
Arguments amount1Expected {error} _.
Arguments liquidityAmount {error} _.
Arguments tickSpacing {error} _.
Arguments incentiveIDsCommittedTo {error} _.
Arguments isNotFirstPosition {error} _.
Arguments expectedError {error} _.
Arguments mergeConfigs {error} dst overwrite.

(** ** Vocabulary of the properties *)

(** The two conditions of lines 183-195 of tick.go, as the code tests
    them. *)
Definition spacingDivides (tickSpacing lowerTick upperTick : Z) : Prop :=
  Z.rem lowerTick (int64_of_uint64 tickSpacing) = 0 /\
  Z.rem upperTick (int64_of_uint64 tickSpacing) = 0.

Definition withinBounds (MinTick MaxTick lowerTick upperTick : Z) : Prop :=
  (MinTick <= lowerTick < MaxTick) /\ (MinTick < upperTick <= MaxTick).

Definition isInt64 (x : Z) : Prop := minInt64 <= x <= maxInt64.
Definition isUint64 (x : Z) : Prop := 0 <= x < 2 ^ 64.

(** The incentive update of a tick read position by position: [records]
    has, at every index, the record of [reconciled] at that index, updated
    when [incentiveIDsCommittedTo] holds that record's ID at the same index
    and left alone otherwise. *)
Definition positionallyUpdated (liquidityIn : Dec) (upper : bool)
    (incentiveIDsCommittedTo : list Z)
    (reconciled records : list TickIncentivizedLiquidityRecord) : Prop :=
  length records = length reconciled /\
  (length incentiveIDsCommittedTo <= length reconciled)%nat /\
  forall (i : nat) r, reconciled !! i = Some r ->
    records !! i =
      match incentiveIDsCommittedTo !! i with
      | Some incentiveID =>
          if ID r =? incentiveID then updateTickRecord liquidityIn upper r else Some r
      | None => Some r
      end.

(** ** A small ledger for the examples *)

(** [secondsDec] on durations of a whole number of seconds: ten seconds
    print as 10.000000. *)
Definition wholeSecondsDec (d : Z) : Dec := Dec.ofInt (Z.quot d (10 ^ 9)).

(** A pricing collaborator that turns any amounts into a liquidity of 2. *)
Definition examplePricing (_ : Pool) (_ _ : Z) (amount0 amount1 : Z) : Dec * Z * Z :=
  (Dec.ofInt 2, amount0, amount1).

Definition exampleAmounts (_ : Pool) (_ _ : Z) (_ : Dec) : Z * Z := (0, 0).

(** Pool 1, created at time 0 with one incentive, ten seconds ago. *)
Definition examplePool : Pool :=
  {| TimeOfCreation := 0; TickSpacing := 10; CurrentTick := 0; CurrentSqrtPrice := 0;
     PoolIncentivizedLiquidityRecords :=
       [ {| PoolRecordID := 1; SecondsPerIncentivizedLiquidityGlobal := 0 |} ] |}.

Definition exampleGenesis : State :=
  {| BlockTime := 10 * 10 ^ 9; pools := {[ 1 := examplePool ]}; ticks := ∅; positions := ∅ |}.

(** A liquidity of 2 on [-10, 10] committed to incentive 1: the two calls
    of [initOrUpdateTick], lower boundary first. *)
Definition exampleCommitted : State :=
  ((initOrUpdateTick 1 (-10) (Dec.ofInt 2) false [1] ;;;
    initOrUpdateTick 1 10 (Dec.ofInt 2) true [1])%keeper exampleGenesis).2.

(** The same liquidity, committed to no incentive. *)
Definition exampleUncommitted : State :=
  ((initOrUpdateTick 1 (-10) (Dec.ofInt 2) false [] ;;;
    initOrUpdateTick 1 10 (Dec.ofInt 2) true [])%keeper exampleGenesis).2.

(** The first position of pool 1, created on [-10, 10] for incentive 1. *)
Definition examplePosition : State :=
  (createPosition (-887272) 887272 examplePricing
     1 "alice" 5 5 0 0 (-10) 10 [1] exampleGenesis).2.

(** After that liquidity, the pool gains a second incentive. *)
Definition exampleGrown : State :=
  setPools exampleCommitted
    {[ 1 := SetPoolIncentivizedLiquidityRecords examplePool
              [ {| PoolRecordID := 1; SecondsPerIncentivizedLiquidityGlobal := 0 |};
                {| PoolRecordID := 2; SecondsPerIncentivizedLiquidityGlobal := 0 |} ] ]}.

(** Pool 1 without incentives, and no tick yet. *)
Definition examplePlain : State :=
  setPools exampleGenesis {[ 1 := SetPoolIncentivizedLiquidityRecords examplePool [] ]}.

(** * Properties *)

(** ** Tick-range validation *)

Section Validation.

Variables MinTick MaxTick : Z.

Local Abbreviation validate := (validateTickRangeIsValid MinTick MaxTick).

Lemma validate_cases tickSpacing lowerTick upperTick :
  int64_of_uint64 tickSpacing <> 0 ->
  validate tickSpacing lowerTick upperTick =
    if decide (spacingDivides tickSpacing lowerTick upperTick) then
      if decide (MinTick <= lowerTick < MaxTick) then
        if decide (MinTick < upperTick <= MaxTick) then
          if decide (lowerTick < upperTick) then Returned tt
          else Failed (InvalidLowerUpperTickError lowerTick upperTick)
        else Failed (InvalidTickError upperTick false)
      else Failed (InvalidTickError lowerTick true)
    else Failed (TickSpacingError lowerTick upperTick tickSpacing).
Proof.
  intros Hs. unfold validateTickRangeIsValid, spacingDivides.
  destruct (Z.eqb_spec (int64_of_uint64 tickSpacing) 0) as [|_]; [done|].
  destruct (Z.eqb_spec (Z.rem lowerTick (int64_of_uint64 tickSpacing)) 0) as [Hl|Hl];
    destruct (Z.eqb_spec (Z.rem upperTick (int64_of_uint64 tickSpacing)) 0) as [Hu|Hu];
    simpl; repeat case_decide; try tauto; try reflexivity.
  all: repeat match goal with
         | |- context [?a <? ?b] => destruct (Z.ltb_spec a b)
         | |- context [?a >=? ?b] => destruct (Z.geb_spec a b)
         | |- context [?a >? ?b] => destruct (Z.gtb_spec a b)
         | |- context [?a <=? ?b] => destruct (Z.leb_spec a b)
         end; simpl; try reflexivity; lia.
Qed.

Lemma validate_zero_spacing lowerTick upperTick :
  validate 0 lowerTick upperTick = Panicked.
Proof. reflexivity. Qed.

(** A multiple of a 64-bit spacing that fits [int64] has remainder zero
    by the spacing converted to [int64], as the code tests it. *)
Lemma rem_int64_of_divide tickSpacing tick :
  isUint64 tickSpacing -> isInt64 tick -> tickSpacing <> 0 ->
  (tickSpacing | tick) -> Z.rem tick (int64_of_uint64 tickSpacing) = 0.
Proof.
  unfold isUint64, isInt64, minInt64, maxInt64, int64_of_uint64.
  intros Hts Ht Hnz [k Hk].
  destruct (Z.ltb_spec tickSpacing (2 ^ 63)) as [Hlt|Hge].
  - apply Z.rem_divide; [done|]. by exists k.
  - assert (k = 0 \/ (k = -1 /\ tickSpacing = 2 ^ 63)) as [->| [-> ->]] by nia.
    + subst tick. reflexivity.
    + subst tick. reflexivity.
Qed.

Lemma int64_of_uint64_nonzero tickSpacing :
  isUint64 tickSpacing -> tickSpacing <> 0 -> int64_of_uint64 tickSpacing <> 0.
Proof.
  unfold isUint64, int64_of_uint64. intros Hts Hnz.
  destruct (Z.ltb_spec tickSpacing (2 ^ 63)); lia.
Qed.

Lemma int64_of_uint64_small tickSpacing :
  0 <= tickSpacing < 2 ^ 63 -> int64_of_uint64 tickSpacing = tickSpacing.
Proof.
  unfold int64_of_uint64. intros Hts.
  destruct (Z.ltb_spec tickSpacing (2 ^ 63)); lia.
Qed.

End Validation.

(** C5, as stated, fails: with spacing 10 the range [5, 0] is rejected by
    the spacing check, which comes first, and never reaches the ordering
    check. *)
Lemma validate_order_counterexample :
  5 >= 0 /\
  validateTickRangeIsValid (-887272) 887272 10 5 0 = Failed (TickSpacingError 5 0 10) /\
  validateTickRangeIsValid (-887272) 887272 10 5 0 <> Failed (InvalidLowerUpperTickError 5 0).
Proof. split; [lia|]. split; [reflexivity|discriminate]. Qed.

(** Outside the conditions of a valid range the inclusive interval is not
    the criterion: a lower tick equal to [MaxTick] with an upper tick that
    is not above it is reported as an invalid lower tick, and a tick
    outside the interval that the spacing does not divide is reported by
    the spacing check. *)
Lemma validate_bounds_outside_conditions :
  (-100 <= 100 <= 100 /\
   validateTickRangeIsValid (-100) 100 1 100 100 = Failed (InvalidTickError 100 true)) /\
  (~ (-100 <= 205 <= 100) /\
   validateTickRangeIsValid (-100) 100 10 0 205 = Failed (TickSpacingError 0 205 10)).
Proof. split; (split; [lia|reflexivity]). Qed.

(** C6: for a range with lowerTick < upperTick whose ticks are both
    divisible by the tick spacing, validation returns an invalid-tick
    error exactly when a tick lies outside the inclusive interval
    [MinTick, MaxTick]; the error names the lower tick, flagged as lower,
    exactly when lowerTick < MinTick or lowerTick >= MaxTick, and the
    upper tick, flagged as upper, exactly when the lower tick passes that
    test and upperTick > MaxTick or upperTick <= MinTick, and there is no
    other invalid-tick error; and when both ticks are within
    [MinTick, MaxTick] validation succeeds. *)
Theorem validateTickRangeIsValid_bounds
    (MinTick MaxTick tickSpacing lowerTick upperTick : Z) :
  isUint64 tickSpacing -> isInt64 lowerTick -> isInt64 upperTick ->
  (tickSpacing | lowerTick) -> (tickSpacing | upperTick) ->
  lowerTick < upperTick ->
  ((exists tick isLower,
      validateTickRangeIsValid MinTick MaxTick tickSpacing lowerTick upperTick
        = Failed (InvalidTickError tick isLower))
   <-> ~ (MinTick <= lowerTick <= MaxTick /\ MinTick <= upperTick <= MaxTick)) /\
  (validateTickRangeIsValid MinTick MaxTick tickSpacing lowerTick upperTick
     = Failed (InvalidTickError lowerTick true)
   <-> lowerTick < MinTick \/ lowerTick >= MaxTick) /\
  (validateTickRangeIsValid MinTick MaxTick tickSpacing lowerTick upperTick
     = Failed (InvalidTickError upperTick false)
   <-> MinTick <= lowerTick < MaxTick /\
       (upperTick > MaxTick \/ upperTick <= MinTick)) /\
  (forall tick isLower,
     validateTickRangeIsValid MinTick MaxTick tickSpacing lowerTick upperTick
       = Failed (InvalidTickError tick isLower) ->
     (tick = lowerTick /\ isLower = true) \/ (tick = upperTick /\ isLower = false)) /\
  (MinTick <= lowerTick <= MaxTick -> MinTick <= upperTick <= MaxTick ->
   validateTickRangeIsValid MinTick MaxTick tickSpacing lowerTick upperTick = Returned tt).
Proof.
  intros Hts Hl Hu Hdl Hdu Hlt.
  assert (tickSpacing <> 0) as Hnz.
  { intros ->. destruct Hdl as [k Hk], Hdu as [k' Hk']. lia. }
  rewrite (validate_cases _ _ _ _ _ (int64_of_uint64_nonzero _ Hts Hnz)).
  pose proof (rem_int64_of_divide _ _ Hts Hl Hnz Hdl).
  pose proof (rem_int64_of_divide _ _ Hts Hu Hnz Hdu).
  unfold spacingDivides.
  repeat case_decide; repeat split; intros;
    repeat match goal with
           | H : ex _ |- _ => destruct H
           end;
    simplify_eq; try tauto; try lia; eauto.
Qed.

Lemma validateTickRangeIsValid_bounds_witness :
  validateTickRangeIsValid (-887272) 887272 10 (-20) 30 = Returned tt.
Proof.
  apply (validateTickRangeIsValid_bounds (-887272) 887272 10 (-20) 30);
    unfold isUint64, isInt64, minInt64, maxInt64; try lia.
  - by exists (-2).
  - by exists 3.
Defined.

(** ** The tick ledger *)

Lemma poolExists_Some s poolId pool :
  pools s !! poolId = Some pool -> poolExists s poolId = true.
Proof. intros H. unfold poolExists. apply bool_decide_eq_true. by rewrite H. Qed.

Lemma poolExists_None s poolId :
  pools s !! poolId = None -> poolExists s poolId = false.
Proof.
  intros H. unfold poolExists. apply bool_decide_eq_false. rewrite H.
  by intros [? ?].
Qed.

Lemma tickUnmarshals_unwritten s poolId tickIndex :
  ticks s !! (poolId, tickIndex) = None ->
  tickUnmarshals (tickOrZero s poolId tickIndex) = true.
Proof. intros H. unfold tickOrZero. by rewrite H. Qed.

Lemma getTickInfo_Some s poolId tickIndex pool :
  pools s !! poolId = Some pool ->
  tickUnmarshals (tickOrZero s poolId tickIndex) = true ->
  getTickInfo poolId tickIndex s = (Returned (tickOrZero s poolId tickIndex), s).
Proof.
  intros H. unfold getTickInfo, tickOrZero. rewrite (poolExists_Some _ _ _ H). simpl.
  destruct (ticks s !! (poolId, tickIndex)); simpl; [|done]. by intros ->.
Qed.

Lemma getTickInfo_undecodable s poolId tickIndex pool :
  pools s !! poolId = Some pool ->
  tickUnmarshals (tickOrZero s poolId tickIndex) = false ->
  getTickInfo poolId tickIndex s = (Failed UnmarshalError, s).
Proof.
  intros H. unfold getTickInfo, tickOrZero. rewrite (poolExists_Some _ _ _ H). simpl.
  destruct (ticks s !! (poolId, tickIndex)); simpl; [|done]. by intros ->.
Qed.

Lemma getTickInfo_None s poolId tickIndex :
  pools s !! poolId = None ->
  getTickInfo poolId tickIndex s = (Failed (PoolNotFoundError poolId), s).
Proof. intros H. unfold getTickInfo. by rewrite (poolExists_None _ _ H). Qed.

(** Both methods start by reading the tick and the pool: with the pool
    known to exist and the stored tick known to decode, run these two
    reads. *)
Ltac read_tick_and_pool Hp Hd :=
  unfold bind; rewrite (getTickInfo_Some _ _ _ _ Hp Hd);
  unfold getPoolById; rewrite Hp; simpl.

(** C8: for an existing pool and a tick index that was never written,
    [getTickInfo] returns the zero-valued record without error; it fails
    with [PoolNotFoundError] if and only if the pool does not exist, and
    then for the pool id it was given. Its only other failure is the decode
    error of a stored tick, on an existing pool; it never panics and never
    writes. *)
Theorem getTickInfo_default_or_pool_not_found (s : State) (poolId tickIndex : Z) :
  (is_Some (pools s !! poolId) -> ticks s !! (poolId, tickIndex) = None ->
   getTickInfo poolId tickIndex s =
     (Returned {| LiquidityGross := 0; LiquidityNet := 0; SecondsInactive := 0;
                  TickIncentivizedLiquidityRecords := [] |}, s)) /\
  ((exists id, (getTickInfo poolId tickIndex s).1 = Failed (PoolNotFoundError id))
   <-> pools s !! poolId = None) /\
  (forall id, (getTickInfo poolId tickIndex s).1 = Failed (PoolNotFoundError id) ->
     id = poolId) /\
  (forall e, (getTickInfo poolId tickIndex s).1 = Failed e ->
     e = PoolNotFoundError poolId \/
     (e = UnmarshalError /\ is_Some (pools s !! poolId) /\
      tickUnmarshals (tickOrZero s poolId tickIndex) = false)) /\
  (getTickInfo poolId tickIndex s).1 <> Panicked /\
  (getTickInfo poolId tickIndex s).2 = s.
Proof.
  destruct (pools s !! poolId) as [pool|] eqn:Hp.
  - destruct (tickUnmarshals (tickOrZero s poolId tickIndex)) eqn:Hd.
    + rewrite (getTickInfo_Some _ _ _ _ Hp Hd). unfold tickOrZero. simpl.
      repeat split; try discriminate.
      * intros _ ->. reflexivity.
      * intros [id Hid]. discriminate.
    + rewrite (getTickInfo_undecodable _ _ _ _ Hp Hd). simpl.
      repeat split; try discriminate.
      * intros _ Hnone. by rewrite (tickUnmarshals_unwritten _ _ _ Hnone) in Hd.
      * intros [id Hid]. discriminate.
      * intros e [= <-]. right. eauto.
  - rewrite (getTickInfo_None _ _ _ Hp). simpl.
    repeat split; try discriminate; eauto.
    + by intros [? ?].
    + by intros id [= <-].
    + intros e [= <-]. by left.
Qed.

(** C9: without a pool under the given id, [crossTick] returns
    [PoolNotFoundError] and leaves the store, ticks and pools alike, as it
    was. *)
Theorem crossTick_pool_not_found (secondsDec : Z -> Dec) (poolRecordsByPointer : bool)
    (s : State) (poolId tickIndex : Z) :
  pools s !! poolId = None ->
  crossTick secondsDec poolRecordsByPointer poolId tickIndex s
    = (Failed (PoolNotFoundError poolId), s).
Proof.
  intros Hp. unfold crossTick, bind. by rewrite (getTickInfo_None _ _ _ Hp).
Qed.

(** ** Inversion of the keeper methods *)

Lemma checked_Some i j : Dec.checked i = Some j -> j = i.
Proof. unfold Dec.checked. case_match; congruence. Qed.

Lemma Add_Some a b c : Dec.Add a b = Some c -> c = a + b.
Proof. apply checked_Some. Qed.

Lemma Sub_Some a b c : Dec.Sub a b = Some c -> c = a - b.
Proof. apply checked_Some. Qed.

Lemma AddLiquidity_Some a b c : AddLiquidity a b = Some c -> c = a + b.
Proof.
  unfold AddLiquidity, Dec.LT, Dec.Abs, Dec.ZeroDec.
  destruct (Z.ltb_spec b 0) as [Hb|Hb]; intros H.
  - apply Sub_Some in H. lia.
  - by apply Add_Some in H.
Qed.

(** What a successful [initOrUpdateTick] has read, computed and written. *)
Lemma initOrUpdateTick_Returned poolId tickIndex liquidityIn upper ids s u s' :
  initOrUpdateTick poolId tickIndex liquidityIn upper ids s = (Returned u, s') ->
  exists pool reconciled records,
    pools s !! poolId = Some pool /\
    reconcileTickRecords pool
      (TickIncentivizedLiquidityRecords (tickOrZero s poolId tickIndex)) = Some reconciled /\
    updateCommittedRecords liquidityIn upper 0 ids reconciled = Some records /\
    s' = setTicks s
           (<[(poolId, tickIndex) :=
                {| LiquidityGross := LiquidityGross (tickOrZero s poolId tickIndex) + liquidityIn;
                   LiquidityNet :=
                     if upper then LiquidityNet (tickOrZero s poolId tickIndex) - liquidityIn
                     else LiquidityNet (tickOrZero s poolId tickIndex) + liquidityIn;
                   SecondsInactive :=
                     if Dec.Equal (LiquidityGross (tickOrZero s poolId tickIndex)) Dec.ZeroDec
                        && Dec.Equal (LiquidityNet (tickOrZero s poolId tickIndex)) Dec.ZeroDec
                     then time_Sub (BlockTime s) (TimeOfCreation pool)
                     else SecondsInactive (tickOrZero s poolId tickIndex);
                   TickIncentivizedLiquidityRecords := records |}]> (ticks s)).
Proof.
  unfold initOrUpdateTick. intros H.
  destruct (pools s !! poolId) as [pool|] eqn:Hp.
  2:{ rewrite (poolExists_None _ _ Hp) in H. discriminate. }
  rewrite (poolExists_Some _ _ _ Hp) in H. simpl in H.
  unfold bind in H.
  destruct (tickUnmarshals (tickOrZero s poolId tickIndex)) eqn:Hd.
  2:{ rewrite (getTickInfo_undecodable _ _ _ _ Hp Hd) in H. discriminate. }
  rewrite (getTickInfo_Some _ _ _ _ Hp Hd) in H.
  unfold getPoolById in H. rewrite Hp in H.
  set (tickInfo := tickOrZero s poolId tickIndex) in *.
  destruct (AddLiquidity (LiquidityGross tickInfo) liquidityIn) as [gross|] eqn:Hg;
    [|discriminate]. simpl in H.
  destruct (if upper then Dec.Sub (LiquidityNet tickInfo) liquidityIn
            else Dec.Add (LiquidityNet tickInfo) liquidityIn) as [net|] eqn:Hn;
    [|discriminate]. simpl in H.
  destruct (reconcileTickRecords pool (TickIncentivizedLiquidityRecords tickInfo))
    as [reconciled|] eqn:Hr; [|discriminate]. simpl in H.
  destruct (updateCommittedRecords liquidityIn upper 0 ids reconciled)
    as [records|] eqn:Hu; [|discriminate]. simpl in H.
  unfold SetTickInfo in H. inversion H as [[Hu' Hs']]. clear H Hs'.
  exists pool, reconciled, records. repeat split; try done.
  apply AddLiquidity_Some in Hg. subst gross.
  assert (net = if upper then LiquidityNet tickInfo - liquidityIn
                else LiquidityNet tickInfo + liquidityIn) as ->.
  { destruct upper; [by apply Sub_Some in Hn | by apply Add_Some in Hn]. }
  reflexivity.
Qed.

(** ** The sum of net liquidity *)

Lemma addNetOf_comm poolId j1 z1 j2 z2 y :
  addNetOf poolId j1 z1 (addNetOf poolId j2 z2 y)
  = addNetOf poolId j2 z2 (addNetOf poolId j1 z1 y).
Proof. unfold addNetOf. repeat case_bool_decide; lia. Qed.

Lemma addNetOf_plus poolId key tickInfo acc :
  addNetOf poolId key tickInfo acc = addNetOf poolId key tickInfo 0 + acc.
Proof. unfold addNetOf. case_bool_decide; lia. Qed.

Lemma netFold_insert_fresh (poolId : Z) (key : Z * Z) (tickInfo : TickInfo)
    (m : gmap (Z * Z) TickInfo) :
  m !! key = None ->
  map_fold (addNetOf poolId) 0 (<[key := tickInfo]> m)
  = addNetOf poolId key tickInfo 0 + map_fold (addNetOf poolId) 0 m.
Proof.
  intros Hfresh. rewrite map_fold_insert_L; [apply addNetOf_plus| |done].
  intros. apply addNetOf_comm.
Qed.

Lemma netFold_insert (poolId : Z) (key : Z * Z) (tickInfo : TickInfo)
    (m : gmap (Z * Z) TickInfo) :
  map_fold (addNetOf poolId) 0 (<[key := tickInfo]> m)
  = map_fold (addNetOf poolId) 0 m
    + addNetOf poolId key tickInfo 0
    - from_option (fun old => addNetOf poolId key old 0) 0 (m !! key).
Proof.
  destruct (m !! key) as [old|] eqn:Hold; simpl.
  - rewrite <- (insert_delete_eq m key tickInfo).
    rewrite netFold_insert_fresh by apply lookup_delete_eq.
    rewrite <- (insert_delete_id m key old Hold) at 2.
    rewrite netFold_insert_fresh by apply lookup_delete_eq. lia.
  - rewrite netFold_insert_fresh by done. lia.
Qed.

(** A successful [initOrUpdateTick] moves the sum of its pool by the
    delta: up at a lower boundary, down at an upper boundary. *)
Lemma initOrUpdateTick_netSum poolId tickIndex liquidityIn upper ids s u s' p :
  initOrUpdateTick poolId tickIndex liquidityIn upper ids s = (Returned u, s') ->
  liquidityNetSum s' p
  = liquidityNetSum s p
    + (if bool_decide (poolId = p) then (if upper then - liquidityIn else liquidityIn) else 0).
Proof.
  intros H. apply initOrUpdateTick_Returned in H as (pool & rec & recs & _ & _ & _ & ->).
  unfold liquidityNetSum. simpl. rewrite netFold_insert.
  unfold tickOrZero, addNetOf. simpl.
  destruct (ticks s !! (poolId, tickIndex)) as [old|]; simpl;
    case_bool_decide; destruct upper; simpl; unfold Dec.ZeroDec; lia.
Qed.

Lemma liquidityNetSum_ticks s s' p :
  ticks s' = ticks s -> liquidityNetSum s' p = liquidityNetSum s p.
Proof. unfold liquidityNetSum. by intros ->. Qed.

Lemma updateBoundaryTicks_netSum poolId lowerTick upperTick delta ids s u s' p :
  updateBoundaryTicks poolId lowerTick upperTick delta ids s = (Returned u, s') ->
  liquidityNetSum s' p = liquidityNetSum s p.
Proof.
  unfold updateBoundaryTicks, bind. intros H.
  destruct (initOrUpdateTick poolId lowerTick delta false ids s) as [[u1| |] s1] eqn:H1;
    try discriminate.
  apply (initOrUpdateTick_netSum _ _ _ _ _ _ _ _ p) in H1.
  apply (initOrUpdateTick_netSum _ _ _ _ _ _ _ _ p) in H.
  rewrite H, H1. case_bool_decide; lia.
Qed.

Lemma createPosition_Returned MinTick MaxTick pricing poolId owner a0 a1 m0 m1
    lowerTick upperTick ids s r s' :
  createPosition MinTick MaxTick pricing poolId owner a0 a1 m0 m1 lowerTick upperTick ids s
    = (Returned r, s') ->
  exists pool delta u s1,
    pools s !! poolId = Some pool /\
    validateTickRangeIsValid MinTick MaxTick (TickSpacing pool) lowerTick upperTick = Returned tt /\
    updateBoundaryTicks poolId lowerTick upperTick delta ids s = (Returned u, s1) /\
    ticks s' = ticks s1.
Proof.
  unfold createPosition. intros H.
  destruct (pools s !! poolId) as [pool|]; [|discriminate].
  destruct (validateTickRangeIsValid _ _ _ _ _) as [[]| |] eqn:Hv; try discriminate.
  destruct (pricing pool lowerTick upperTick a0 a1) as [[delta amount0] amount1].
  repeat (match type of H with
          | (if ?b then _ else _) = _ => destruct b; [discriminate|]
          end).
  destruct (updateBoundaryTicks poolId lowerTick upperTick delta ids s)
    as [[u| |] s1] eqn:Hu; try discriminate.
  destruct (Dec.Add _ _); [|discriminate].
  inversion H; subst; clear H.
  exists pool, delta, u, s1. repeat split; done.
Qed.

Lemma withdrawPosition_Returned MinTick MaxTick amounts poolId owner
    lowerTick upperTick liquidityAmount ids s r s' :
  withdrawPosition MinTick MaxTick amounts poolId owner lowerTick upperTick liquidityAmount ids s
    = (Returned r, s') ->
  exists pool u s1,
    pools s !! poolId = Some pool /\
    validateTickRangeIsValid MinTick MaxTick (TickSpacing pool) lowerTick upperTick = Returned tt /\
    updateBoundaryTicks poolId lowerTick upperTick (- liquidityAmount) ids s = (Returned u, s1) /\
    ticks s' = ticks s1.
Proof.
  unfold withdrawPosition. intros H.
  destruct (pools s !! poolId) as [pool|]; [|discriminate].
  destruct (validateTickRangeIsValid _ _ _ _ _) as [[]| |] eqn:Hv; try discriminate.
  destruct (positions s !! _) as [available|]; [|discriminate].
  destruct (available <? liquidityAmount); [discriminate|].
  destruct (updateBoundaryTicks poolId lowerTick upperTick (- liquidityAmount) ids s)
    as [[u| |] s1] eqn:Hu; try discriminate.
  inversion H; subst; clear H.
  exists pool, u, s1. repeat split; done.
Qed.

(** What a successful [crossTick] has read, computed and written. *)
Lemma crossTick_Returned secondsDec byPointer poolId tickIndex s r s' :
  crossTick secondsDec byPointer poolId tickIndex s = (Returned r, s') ->
  exists pool poolRecords,
    pools s !! poolId = Some pool /\
    secondsPerLiquidityLoop secondsDec (time_Sub (BlockTime s) (TimeOfCreation pool))
      (TickIncentivizedLiquidityRecords (tickOrZero s poolId tickIndex)) = Some tt /\
    globalSecondsLoop byPointer
      (TickIncentivizedLiquidityRecords (tickOrZero s poolId tickIndex)) 0
      (PoolIncentivizedLiquidityRecords pool) = Some poolRecords /\
    r = LiquidityNet (tickOrZero s poolId tickIndex) /\
    ticks s' =
      <[(poolId, tickIndex) :=
          {| LiquidityGross := LiquidityGross (tickOrZero s poolId tickIndex);
             LiquidityNet := LiquidityNet (tickOrZero s poolId tickIndex);
             SecondsInactive := time_Sub (BlockTime s) (TimeOfCreation pool);
             TickIncentivizedLiquidityRecords :=
               TickIncentivizedLiquidityRecords (tickOrZero s poolId tickIndex) |}]> (ticks s) /\
    pools s' = <[poolId := SetPoolIncentivizedLiquidityRecords pool poolRecords]> (pools s) /\
    positions s' = positions s /\ BlockTime s' = BlockTime s.
Proof.
  unfold crossTick, bind. intros H.
  destruct (pools s !! poolId) as [pool|] eqn:Hp.
  2:{ rewrite (getTickInfo_None _ _ _ Hp) in H. discriminate. }
  destruct (tickUnmarshals (tickOrZero s poolId tickIndex)) eqn:Hd.
  2:{ rewrite (getTickInfo_undecodable _ _ _ _ Hp Hd) in H. discriminate. }
  rewrite (getTickInfo_Some _ _ _ _ Hp Hd) in H.
  unfold getPoolById in H. rewrite Hp in H. simpl in H.
  destruct (secondsPerLiquidityLoop _ _ _) as [[]|] eqn:Hloop; [|discriminate].
  simpl in H.
  destruct (globalSecondsLoop _ _ _ _) as [poolRecords|] eqn:Hglobal; [|discriminate].
  simpl in H. inversion H; subst; clear H.
  exists pool, poolRecords. repeat split; done.
Qed.

Lemma crossTick_netSum secondsDec byPointer poolId tickIndex s r s' p :
  crossTick secondsDec byPointer poolId tickIndex s = (Returned r, s') ->
  liquidityNetSum s' p = liquidityNetSum s p.
Proof.
  intros H. apply crossTick_Returned in H as (pool & recs & _ & _ & _ & _ & Ht & _).
  unfold liquidityNetSum. rewrite Ht, netFold_insert.
  unfold tickOrZero, addNetOf.
  destruct (ticks s !! (poolId, tickIndex)) as [old|]; simpl;
    case_bool_decide; unfold Dec.ZeroDec; lia.
Qed.

Lemma step_netSum MinTick MaxTick secondsDec byPointer pricing amounts s s' p :
  step MinTick MaxTick secondsDec byPointer pricing amounts s s' ->
  liquidityNetSum s' p = liquidityNetSum s p.
Proof.
  intros [? ? ? ? ? ? ? ? ? ? ? ? H|? ? ? ? ? ? ? ? ? H|? ? ? ? ? H|? ? H _].
  - apply createPosition_Returned in H as (pool & delta & u & s1 & _ & _ & H & Ht).
    rewrite (liquidityNetSum_ticks _ _ _ Ht). eapply updateBoundaryTicks_netSum, H.
  - apply withdrawPosition_Returned in H as (pool & u & s1 & _ & _ & H & Ht).
    rewrite (liquidityNetSum_ticks _ _ _ Ht). eapply updateBoundaryTicks_netSum, H.
  - eapply crossTick_netSum, H.
  - by apply liquidityNetSum_ticks.
Qed.

(** C1: [initOrUpdateTick] adds the signed delta to [LiquidityNet] at a
    lower boundary ([upper = false]) and subtracts it at an upper boundary
    ([upper = true]); hence in every store the ledger can reach by creating
    and withdrawing positions (and crossing ticks), the sum of
    [LiquidityNet] over the initialized ticks of each pool is exactly
    zero. *)
Theorem liquidityNet_sums_to_zero (MinTick MaxTick : Z) (secondsDec : Z -> Dec)
    (poolRecordsByPointer : bool)
    (liquidityAndAmounts : Pool -> Z -> Z -> Z -> Z -> Dec * Z * Z)
    (amountsOfLiquidity : Pool -> Z -> Z -> Dec -> Z * Z) :
  (forall poolId tickIndex liquidityIn upper incentiveIDsCommittedTo s u s',
     initOrUpdateTick poolId tickIndex liquidityIn upper incentiveIDsCommittedTo s
       = (Returned u, s') ->
     LiquidityNet <$> ticks s' !! (poolId, tickIndex)
     = Some (if upper then LiquidityNet (tickOrZero s poolId tickIndex) - liquidityIn
             else LiquidityNet (tickOrZero s poolId tickIndex) + liquidityIn)) /\
  (forall s,
     reachable MinTick MaxTick secondsDec poolRecordsByPointer
       liquidityAndAmounts amountsOfLiquidity s ->
     forall poolId, liquidityNetSum s poolId = 0).
Proof.
  split.
  - intros poolId tickIndex liquidityIn upper ids s u s' H.
    apply initOrUpdateTick_Returned in H as (pool & rec & recs & _ & _ & _ & ->).
    simpl. by rewrite lookup_insert_eq.
  - induction 1 as [s Ht _|s s' _ IH Hstep]; intros poolId.
    + unfold liquidityNetSum. rewrite Ht. apply map_fold_empty.
    + rewrite (step_netSum _ _ _ _ _ _ _ _ _ Hstep). apply IH.
Qed.

(** ** The update of the committed incentive records *)

Lemma updateCommittedRecords_lookup liquidityIn upper ids :
  forall (i : nat) (tickRecords records : list TickIncentivizedLiquidityRecord),
    updateCommittedRecords liquidityIn upper i ids tickRecords = Some records ->
    length records = length tickRecords /\
    (length ids = 0 \/ i + length ids <= length tickRecords)%nat /\
    forall (j : nat) r, tickRecords !! j = Some r ->
      records !! j =
        if decide (i <= j)%nat then
          match ids !! (j - i)%nat with
          | Some incentiveID =>
              if ID r =? incentiveID then updateTickRecord liquidityIn upper r else Some r
          | None => Some r
          end
        else Some r.
Proof.
  induction ids as [|incentiveID rest IH]; intros i tickRecords records H; simpl in H.
  - inversion H; subst. split; [done|]. split; [by left|].
    intros j r Hj. case_decide; [|done]. by rewrite lookup_nil.
  - destruct (tickRecords !! i) as [r0|] eqn:Hi; [|discriminate].
    pose proof (lookup_lt_Some _ _ _ Hi) as Hlt.
    destruct (Z.eqb_spec (ID r0) incentiveID) as [Hid|Hid].
    + destruct (updateTickRecord liquidityIn upper r0) as [r0'|] eqn:Hupd; [|discriminate].
      apply IH in H as (Hlen & Hbound & Hlookup).
      rewrite length_insert in Hlen, Hbound. simpl.
      split; [done|]. split; [lia|].
      intros j r Hj. destruct (decide (j = i)) as [->|Hne].
      * assert (r = r0) as -> by congruence.
        rewrite (Hlookup i r0') by (by apply list_lookup_insert_eq).
        rewrite decide_False by lia. rewrite decide_True by lia.
        rewrite Nat.sub_diag. simpl.
        by destruct (Z.eqb_spec (ID r0) incentiveID).
      * rewrite (Hlookup j r) by (by rewrite list_lookup_insert_ne).
        repeat case_decide; try lia; try done.
        replace (j - i)%nat with (S (j - S i)) by lia. done.
    + apply IH in H as (Hlen & Hbound & Hlookup). simpl.
      split; [done|]. split; [lia|].
      intros j r Hj. rewrite (Hlookup j r Hj).
      destruct (decide (j = i)) as [->|Hne].
      * assert (r = r0) as -> by congruence.
        rewrite decide_False by lia. rewrite decide_True by lia.
        rewrite Nat.sub_diag. simpl.
        by destruct (Z.eqb_spec (ID r0) incentiveID).
      * repeat case_decide; try lia; try done.
        replace (j - i)%nat with (S (j - S i)) by lia. done.
Qed.

Lemma updateCommittedRecords_skip liquidityIn upper ids :
  forall (i : nat) (tickRecords : list TickIncentivizedLiquidityRecord),
    (i + length ids <= length tickRecords)%nat ->
    (forall (j : nat) incentiveID r,
       ids !! j = Some incentiveID -> tickRecords !! (i + j)%nat = Some r ->
       ID r <> incentiveID) ->
    updateCommittedRecords liquidityIn upper i ids tickRecords = Some tickRecords.
Proof.
  induction ids as [|incentiveID rest IH]; intros i tickRecords Hlen Hne; simpl; [done|].
  simpl in Hlen.
  destruct (lookup_lt_is_Some_2 tickRecords i) as [r Hr]; [lia|]. rewrite Hr.
  destruct (Z.eqb_spec (ID r) incentiveID) as [Hid|_].
  - exfalso. apply (Hne 0%nat incentiveID r); [done| |done]. by rewrite Nat.add_0_r.
  - apply IH; [lia|]. intros j id' r' Hj Hr'.
    apply (Hne (S j) id' r'); [done|]. by replace (i + S j)%nat with (S i + j)%nat by lia.
Qed.

(** The run of [initOrUpdateTick] when nothing panics. *)
Lemma initOrUpdateTick_run (poolId tickIndex : Z) (liquidityIn : Dec) (upper : bool)
    (ids : list Z) (s : State) (pool : Pool) (liquidityAfter liquidityNet : Dec)
    (reconciled records : list TickIncentivizedLiquidityRecord) :
  pools s !! poolId = Some pool ->
  tickUnmarshals (tickOrZero s poolId tickIndex) = true ->
  AddLiquidity (LiquidityGross (tickOrZero s poolId tickIndex)) liquidityIn
    = Some liquidityAfter ->
  (if upper then Dec.Sub (LiquidityNet (tickOrZero s poolId tickIndex)) liquidityIn
   else Dec.Add (LiquidityNet (tickOrZero s poolId tickIndex)) liquidityIn)
    = Some liquidityNet ->
  reconcileTickRecords pool
    (TickIncentivizedLiquidityRecords (tickOrZero s poolId tickIndex)) = Some reconciled ->
  updateCommittedRecords liquidityIn upper 0 ids reconciled = Some records ->
  exists tickInfo,
    TickIncentivizedLiquidityRecords tickInfo = records /\
    initOrUpdateTick poolId tickIndex liquidityIn upper ids s
      = (Returned tt, setTicks s (<[(poolId, tickIndex) := tickInfo]> (ticks s))).
Proof.
  intros Hp Hd Hg Hn Hr Hu. unfold initOrUpdateTick.
  rewrite (poolExists_Some _ _ _ Hp). simpl. read_tick_and_pool Hp Hd.
  rewrite Hg. simpl. rewrite Hn. simpl.
  rewrite Hr. simpl. rewrite Hu. simpl. unfold SetTickInfo.
  eexists. split; [|reflexivity]. reflexivity.
Qed.

(** C10: the incentive update of [initOrUpdateTick] is positional. After a
    successful call the persisted tick holds, at every index [i], the
    reconciled record of index [i], updated if and only if
    [incentiveIDsCommittedTo] has an entry at index [i] equal to that
    record's ID; a committed id facing a record with another ID changes
    nothing. And when every committed id faces a record with another ID, the
    call raises no error over it: on a stored tick that decodes, with
    liquidity sums that do not overflow, it returns and persists the
    reconciled records as they were. *)
Theorem initOrUpdateTick_incentive_update_is_positional
    (poolId tickIndex : Z) (liquidityIn : Dec) (upper : bool)
    (incentiveIDsCommittedTo : list Z) (s : State) :
  (forall u s',
     initOrUpdateTick poolId tickIndex liquidityIn upper incentiveIDsCommittedTo s
       = (Returned u, s') ->
     exists pool reconciled tickInfo',
       pools s !! poolId = Some pool /\
       reconcileTickRecords pool
         (TickIncentivizedLiquidityRecords (tickOrZero s poolId tickIndex)) = Some reconciled /\
       ticks s' !! (poolId, tickIndex) = Some tickInfo' /\
       positionallyUpdated liquidityIn upper incentiveIDsCommittedTo reconciled
         (TickIncentivizedLiquidityRecords tickInfo')) /\
  (forall pool liquidityAfter liquidityNet reconciled,
     pools s !! poolId = Some pool ->
     tickUnmarshals (tickOrZero s poolId tickIndex) = true ->
     AddLiquidity (LiquidityGross (tickOrZero s poolId tickIndex)) liquidityIn
       = Some liquidityAfter ->
     (if upper then Dec.Sub (LiquidityNet (tickOrZero s poolId tickIndex)) liquidityIn
      else Dec.Add (LiquidityNet (tickOrZero s poolId tickIndex)) liquidityIn)
       = Some liquidityNet ->
     reconcileTickRecords pool
       (TickIncentivizedLiquidityRecords (tickOrZero s poolId tickIndex)) = Some reconciled ->
     (length incentiveIDsCommittedTo <= length reconciled)%nat ->
     (forall (i : nat) incentiveID r,
        incentiveIDsCommittedTo !! i = Some incentiveID -> reconciled !! i = Some r ->
        ID r <> incentiveID) ->
     exists tickInfo',
       TickIncentivizedLiquidityRecords tickInfo' = reconciled /\
       initOrUpdateTick poolId tickIndex liquidityIn upper incentiveIDsCommittedTo s
         = (Returned tt, setTicks s (<[(poolId, tickIndex) := tickInfo']> (ticks s)))).
Proof.
  split.
  - intros u s' H.
    apply initOrUpdateTick_Returned in H as (pool & reconciled & records & Hp & Hr & Hu & ->).
    apply updateCommittedRecords_lookup in Hu as (Hlen & Hbound & Hlookup).
    eexists pool, reconciled, _. simpl.
    split; [done|]. split; [done|]. split; [apply lookup_insert_eq|].
    unfold positionallyUpdated. simpl.
    split; [done|]. split; [lia|].
    intros i r Hi. rewrite (Hlookup i r Hi).
    rewrite decide_True by lia. by rewrite Nat.sub_0_r.
  - intros pool liquidityAfter liquidityNet reconciled Hp Hd Hg Hn Hr Hlen Hne.
    eapply initOrUpdateTick_run; eauto.
    apply updateCommittedRecords_skip; [simpl; lia|]. simpl. eauto.
Qed.

Lemma initOrUpdateTick_incentive_update_is_positional_witness :
  (exists pool reconciled tickInfo',
     pools exampleGenesis !! 1 = Some pool /\
     reconcileTickRecords pool
       (TickIncentivizedLiquidityRecords (tickOrZero exampleGenesis 1 10)) = Some reconciled /\
     ticks (initOrUpdateTick 1 10 (Dec.ofInt 2) true [2] exampleGenesis).2 !! (1, 10)
       = Some tickInfo' /\
     positionallyUpdated (Dec.ofInt 2) true [2] reconciled
       (TickIncentivizedLiquidityRecords tickInfo')) /\
  (exists tickInfo',
     TickIncentivizedLiquidityRecords tickInfo' = [newTickRecord 1] /\
     initOrUpdateTick 1 10 (Dec.ofInt 2) true [2] exampleGenesis
       = (Returned tt, setTicks exampleGenesis (<[(1, 10) := tickInfo']> (ticks exampleGenesis)))).
Proof.
  split.
  - apply (proj1 (initOrUpdateTick_incentive_update_is_positional
                    1 10 (Dec.ofInt 2) true [2] exampleGenesis) tt).
    vm_compute. reflexivity.
  - apply (proj2 (initOrUpdateTick_incentive_update_is_positional
                    1 10 (Dec.ofInt 2) true [2] exampleGenesis)
             examplePool (Dec.ofInt 2) (Dec.ofInt (-2)) [newTickRecord 1]).
    + reflexivity.
    + reflexivity.
    + reflexivity.
    + reflexivity.
    + reflexivity.
    + simpl. lia.
    + intros [|i] incentiveID r Hid Hr; simpl in Hid, Hr; [|discriminate].
      inversion Hid; inversion Hr; subst. simpl. lia.
Defined.

(** ** Ordering of the range *)

(** C5 (amended): with a tick spacing that is not zero, a range with
    lowerTick >= upperTick is always rejected by the validation, with an
    error and never a panic; the error is [InvalidLowerUpperTickError]
    exactly when both ticks have remainder zero by the spacing converted
    to [int64] and both are within the bounds
    (MinTick <= lowerTick < MaxTick and MinTick < upperTick <= MaxTick),
    because the spacing check and the bounds checks come first; for a
    spacing below 2^63 the remainder condition is that both ticks are
    divisible by the spacing. *)
Theorem lowerTick_ge_upperTick_is_rejected (MinTick MaxTick : Z)
    (tickSpacing lowerTick upperTick : Z) :
  isUint64 tickSpacing -> tickSpacing <> 0 -> lowerTick >= upperTick ->
  exists e,
    validateTickRangeIsValid MinTick MaxTick tickSpacing lowerTick upperTick = Failed e /\
    (e = InvalidLowerUpperTickError lowerTick upperTick <->
     (Z.rem lowerTick (int64_of_uint64 tickSpacing) = 0 /\
      Z.rem upperTick (int64_of_uint64 tickSpacing) = 0) /\
     (MinTick <= lowerTick < MaxTick) /\ (MinTick < upperTick <= MaxTick)) /\
    (tickSpacing < 2 ^ 63 ->
     (e = InvalidLowerUpperTickError lowerTick upperTick <->
      ((tickSpacing | lowerTick) /\ (tickSpacing | upperTick)) /\
      (MinTick <= lowerTick < MaxTick) /\ (MinTick < upperTick <= MaxTick))).
Proof.
  intros Hts Hnz Hge.
  pose proof (validate_cases MinTick MaxTick _ lowerTick upperTick
                (int64_of_uint64_nonzero _ Hts Hnz)) as Hv.
  assert (tickSpacing < 2 ^ 63 ->
          (spacingDivides tickSpacing lowerTick upperTick
           <-> (tickSpacing | lowerTick) /\ (tickSpacing | upperTick))) as Hdiv.
  { intros Hlt. unfold spacingDivides.
    rewrite (int64_of_uint64_small tickSpacing) by (unfold isUint64 in Hts; lia).
    by rewrite !(Z.rem_divide _ _ Hnz). }
  unfold spacingDivides in *.
  repeat case_decide; try lia; eexists; (split; [exact Hv|]);
    (split; [|intros Hlt; specialize (Hdiv Hlt)]);
    (split; [intros Hgoal|intros Hgoal]);
    try discriminate; try done; try tauto.
Qed.

Lemma lowerTick_ge_upperTick_is_rejected_witness :
  exists e,
    validateTickRangeIsValid (-887272) 887272 10 20 20 = Failed e /\
    (e = InvalidLowerUpperTickError 20 20 <->
     (Z.rem 20 (int64_of_uint64 10) = 0 /\ Z.rem 20 (int64_of_uint64 10) = 0) /\
     (-887272 <= 20 < 887272) /\ (-887272 < 20 <= 887272)) /\
    (10 < 2 ^ 63 ->
     (e = InvalidLowerUpperTickError 20 20 <->
      ((10 | 20) /\ (10 | 20)) /\
      (-887272 <= 20 < 887272) /\ (-887272 < 20 <= 887272))).
Proof.
  apply (lowerTick_ge_upperTick_is_rejected (-887272) 887272 10 20 20).
  - unfold isUint64. lia.
  - lia.
  - lia.
Defined.

(** [createPosition] validates the range first and returns the error of
    the validation with the store as it was. *)
Lemma createPosition_invalid_range (MinTick MaxTick : Z)
    (liquidityAndAmounts : Pool -> Z -> Z -> Z -> Z -> Dec * Z * Z)
    (poolId : Z) (owner : string)
    (amount0Desired amount1Desired amount0Min amount1Min lowerTick upperTick : Z)
    (incentiveIDs : list Z) (s : State) (pool : Pool) (e : Error) :
  pools s !! poolId = Some pool ->
  validateTickRangeIsValid MinTick MaxTick (TickSpacing pool) lowerTick upperTick
  = Failed e ->
  createPosition MinTick MaxTick liquidityAndAmounts poolId owner
    amount0Desired amount1Desired amount0Min amount1Min lowerTick upperTick incentiveIDs s
  = (Failed e, s).
Proof. intros Hp He. unfold createPosition. by rewrite Hp, He. Qed.

(** ** Witnesses on the example ledger *)

Lemma liquidityNet_sums_to_zero_witness : liquidityNetSum examplePosition 1 = 0.
Proof.
  apply (proj2 (liquidityNet_sums_to_zero (-887272) 887272 wholeSecondsDec false
                  examplePricing exampleAmounts) examplePosition).
  apply (reachable_step _ _ _ _ _ _ exampleGenesis).
  - apply reachable_init; reflexivity.
  - apply (step_create _ _ _ _ _ _ 1 "alice" 5 5 0 0 (-10) 10 [1] (5, 5, Dec.ofInt 2)).
    vm_compute. reflexivity.
Defined.

Lemma getTickInfo_default_or_pool_not_found_witness :
  getTickInfo 1 10 exampleGenesis =
    (Returned {| LiquidityGross := 0; LiquidityNet := 0; SecondsInactive := 0;
                 TickIncentivizedLiquidityRecords := [] |}, exampleGenesis).
Proof.
  apply (proj1 (getTickInfo_default_or_pool_not_found exampleGenesis 1 10)).
  - vm_compute. eauto.
  - vm_compute. reflexivity.
Defined.

Lemma crossTick_pool_not_found_witness :
  crossTick wholeSecondsDec false 2 10 exampleGenesis
    = (Failed (PoolNotFoundError 2), exampleGenesis).
Proof.
  apply (crossTick_pool_not_found wholeSecondsDec false exampleGenesis 2 10).
  vm_compute. reflexivity.
Defined.

(** ** Where the code departs from its description *)

(** [crossTick] persists the tick's records exactly as it read them: the
    quotient of lines 130-132 is assigned to the loop variable only. *)
Lemma crossTick_tick_records_unchanged secondsDec byPointer poolId tickIndex s r s' :
  crossTick secondsDec byPointer poolId tickIndex s = (Returned r, s') ->
  TickIncentivizedLiquidityRecords <$> ticks s' !! (poolId, tickIndex)
  = Some (TickIncentivizedLiquidityRecords (tickOrZero s poolId tickIndex)).
Proof.
  intros H. apply crossTick_Returned in H as (pool & recs & _ & _ & _ & _ & -> & _).
  by rewrite lookup_insert_eq.
Qed.

(** With a slice of values the pool's records come back as they were. *)
Lemma globalSecondsLoop_values tickRecords poolRecords :
  forall (i : nat) result,
    globalSecondsLoop false tickRecords i poolRecords = Some result ->
    result = poolRecords.
Proof.
  induction poolRecords as [|poolRecord rest IH]; intros i result H; simpl in H.
  - by inversion H.
  - destruct (tickRecords !! i); [|discriminate].
    destruct (Dec.Add _ _); [|discriminate].
    destruct (globalSecondsLoop false tickRecords (S i) rest) as [rest'|] eqn:Hrest;
      [|discriminate].
    inversion H; subst. f_equal. by eapply IH.
Qed.

(** With a slice of pointers each accumulator grows by the value the tick
    had stored, not by the quotient just computed. *)
Lemma globalSecondsLoop_pointers tickRecords poolRecords :
  forall (i : nat) result,
    globalSecondsLoop true tickRecords i poolRecords = Some result ->
    length result = length poolRecords /\
    forall (j : nat) poolRecord, poolRecords !! j = Some poolRecord ->
      exists tickRecord,
        tickRecords !! (i + j)%nat = Some tickRecord /\
        result !! j =
          Some {| PoolRecordID := PoolRecordID poolRecord;
                  SecondsPerIncentivizedLiquidityGlobal :=
                    SecondsPerIncentivizedLiquidityGlobal poolRecord
                    + SecondsPerIncentivizedLiquidityOutside tickRecord |}.
Proof.
  induction poolRecords as [|poolRecord rest IH]; intros i result H; simpl in H.
  - inversion H. split; [done|]. intros j ? Hj. by rewrite lookup_nil in Hj.
  - destruct (tickRecords !! i) as [tickRecord|] eqn:Hi; [|discriminate].
    destruct (Dec.Add _ _) as [sum|] eqn:Hsum; [|discriminate].
    destruct (globalSecondsLoop true tickRecords (S i) rest) as [rest'|] eqn:Hrest;
      [|discriminate].
    inversion H; subst; clear H. apply Add_Some in Hsum. subst sum.
    apply IH in Hrest as [Hlen Hrest]. split; [simpl; lia|].
    intros [|j] poolRecord' Hj; simpl in Hj.
    + inversion Hj; subst. exists tickRecord. by rewrite Nat.add_0_r.
    + destruct (Hrest j poolRecord' Hj) as (tickRecord' & Ht & Hr).
      exists tickRecord'. split; [|done].
      by replace (i + S j)%nat with (S i + j)%nat by lia.
Qed.

(** The loop reads the tick's record at every index of the pool's list. *)
Lemma globalSecondsLoop_reads byPointer tickRecords poolRecords :
  forall (i : nat) result,
    globalSecondsLoop byPointer tickRecords i poolRecords = Some result ->
    forall (j : nat), (j < length poolRecords)%nat -> is_Some (tickRecords !! (i + j)%nat).
Proof.
  induction poolRecords as [|poolRecord rest IH]; intros i result H j Hj; simpl in *; [lia|].
  destruct (tickRecords !! i) as [tickRecord|] eqn:Hi; [|discriminate].
  destruct (Dec.Add _ _); [|discriminate].
  destruct (globalSecondsLoop byPointer tickRecords (S i) rest) as [rest'|] eqn:Hrest;
    [|discriminate].
  destruct j as [|j].
  - rewrite Nat.add_0_r, Hi. eauto.
  - replace (i + S j)%nat with (S i + j)%nat by lia. eapply IH; [done|lia].
Qed.

(** What a successful [crossTick] leaves in the pool's accumulators: the
    value they had, plus, with a slice of pointers, the value stored on the
    tick before the call. *)
Lemma crossTick_global_accumulators secondsDec byPointer poolId tickIndex s r s' :
  crossTick secondsDec byPointer poolId tickIndex s = (Returned r, s') ->
  exists pool poolRecords,
    pools s !! poolId = Some pool /\
    PoolIncentivizedLiquidityRecords <$> pools s' !! poolId = Some poolRecords /\
    length poolRecords = length (PoolIncentivizedLiquidityRecords pool) /\
    forall (j : nat) poolRecord,
      PoolIncentivizedLiquidityRecords pool !! j = Some poolRecord ->
      exists tickRecord,
        TickIncentivizedLiquidityRecords (tickOrZero s poolId tickIndex) !! j
          = Some tickRecord /\
        poolRecords !! j =
          Some (if byPointer then
                  {| PoolRecordID := PoolRecordID poolRecord;
                     SecondsPerIncentivizedLiquidityGlobal :=
                       SecondsPerIncentivizedLiquidityGlobal poolRecord
                       + SecondsPerIncentivizedLiquidityOutside tickRecord |}
                else poolRecord).
Proof.
  intros H.
  apply crossTick_Returned in H as (pool & recs & Hp & _ & Hloop & _ & _ & Hpools & _).
  exists pool, recs. split; [done|]. split.
  { by rewrite Hpools, lookup_insert_eq. }
  destruct byPointer.
  - apply globalSecondsLoop_pointers in Hloop as [Hlen Hloop]. split; [done|].
    intros j poolRecord Hj.
    destruct (Hloop j poolRecord Hj) as (tickRecord & Ht & Hr). eauto.
  - pose proof (globalSecondsLoop_reads _ _ _ _ _ Hloop) as Hreads.
    apply globalSecondsLoop_values in Hloop. subst recs. split; [done|].
    intros j poolRecord Hj.
    destruct (Hreads j (lookup_lt_Some _ _ _ Hj)) as [tickRecord Ht]. eauto.
Qed.

(** A record without incentivized liquidity stops the loop of lines
    130-132 with a panic: the division by zero of [Quo], unless an earlier
    quotient has overflowed already. *)
Lemma secondsPerLiquidityLoop_zero_gross secondsDec secondsInactive tickRecords r :
  r ∈ tickRecords -> IncentivizedLiquidityGross r = 0 ->
  secondsPerLiquidityLoop secondsDec secondsInactive tickRecords = None.
Proof.
  induction tickRecords as [|r0 rest IH]; intros Hin Hzero.
  - by apply elem_of_nil in Hin.
  - simpl. destruct (Dec.Quo _ (IncentivizedLiquidityGross r0)) as [q|] eqn:Hq; [|done].
    apply elem_of_cons in Hin as [->|Hin]; [|by apply IH].
    rewrite Hzero in Hq. discriminate.
Qed.

Lemma crossTick_zero_gross_panics secondsDec byPointer poolId tickIndex s pool r :
  pools s !! poolId = Some pool ->
  tickUnmarshals (tickOrZero s poolId tickIndex) = true ->
  r ∈ TickIncentivizedLiquidityRecords (tickOrZero s poolId tickIndex) ->
  IncentivizedLiquidityGross r = 0 ->
  crossTick secondsDec byPointer poolId tickIndex s = (Panicked, s).
Proof.
  intros Hp Hd Hin Hzero. unfold crossTick. read_tick_and_pool Hp Hd.
  by rewrite (secondsPerLiquidityLoop_zero_gross _ _ _ r Hin Hzero).
Qed.

(** The second branch of the reconciliation never changes the tick's
    records, and panics as soon as the pool has more records than the
    tick. *)
Lemma buildNewTickRecords_out_of_range tickRecords poolRecords :
  forall (i : nat) newTickRecords,
    (i <= length tickRecords < i + length poolRecords)%nat ->
    buildNewTickRecords tickRecords i poolRecords newTickRecords = None.
Proof.
  induction poolRecords as [|record rest IH]; intros i newTickRecords Hlen; simpl in *.
  - lia.
  - destruct (tickRecords !! i) as [tickRecord|] eqn:Hi; [|done].
    apply lookup_lt_Some in Hi.
    destruct (ID tickRecord =? PoolRecordID record); apply IH; lia.
Qed.

Lemma reconcileTickRecords_nonempty pool tickRecords reconciled :
  tickRecords <> [] ->
  reconcileTickRecords pool tickRecords = Some reconciled ->
  reconciled = tickRecords.
Proof.
  unfold reconcileTickRecords. intros Hne H.
  destruct tickRecords as [|r0 rest]; [done|]. simpl in H.
  destruct (negb _); [|by inversion H].
  destruct (buildNewTickRecords _ _ _ _); by inversion H.
Qed.

Lemma reconcileTickRecords_grown pool tickRecords :
  (0 < length tickRecords < length (PoolIncentivizedLiquidityRecords pool))%nat ->
  reconcileTickRecords pool tickRecords = None.
Proof.
  unfold reconcileTickRecords. intros Hlen.
  destruct (Nat.eqb_spec (length tickRecords) 0); [lia|].
  destruct (Nat.eqb_spec (length (PoolIncentivizedLiquidityRecords pool))
              (length tickRecords)); [lia|]. simpl.
  rewrite buildNewTickRecords_out_of_range; [done|lia].
Qed.

(** When the pool has more records than a tick that has some and that
    decodes, [initOrUpdateTick] panics, at the latest on the index out of range of
    line 81, and nothing is written. *)
Lemma initOrUpdateTick_grown_panics poolId tickIndex liquidityIn upper ids s pool :
  pools s !! poolId = Some pool ->
  tickUnmarshals (tickOrZero s poolId tickIndex) = true ->
  (0 < length (TickIncentivizedLiquidityRecords (tickOrZero s poolId tickIndex))
     < length (PoolIncentivizedLiquidityRecords pool))%nat ->
  initOrUpdateTick poolId tickIndex liquidityIn upper ids s = (Panicked, s).
Proof.
  intros Hp Hd Hlen. unfold initOrUpdateTick.
  rewrite (poolExists_Some _ _ _ Hp). simpl. read_tick_and_pool Hp Hd.
  destruct (AddLiquidity _ liquidityIn); [simpl|done].
  destruct (if upper then _ else _); [simpl|done].
  by rewrite (reconcileTickRecords_grown _ _ Hlen).
Qed.

(** C2 (code bug): ten seconds after the creation of pool 1, tick 10 holds
    one incentive record with incentivized liquidity 2. [crossTick]
    succeeds and computes 10 / 2 = 5, yet the persisted record keeps the
    value 0 it had: the quotient is assigned to the range variable, a
    copy. *)
Theorem crossTick_leaves_seconds_per_liquidity_outside (poolRecordsByPointer : bool) :
  TickIncentivizedLiquidityRecords <$> ticks exampleCommitted !! (1, 10)
    = Some [ {| ID := 1;
                IncentivizedLiquidityGross := Dec.ofInt 2;
                IncentivizedLiquidityNet := Dec.ofInt (-2);
                SecondsPerIncentivizedLiquidityOutside := 0 |} ] /\
  (crossTick wholeSecondsDec poolRecordsByPointer 1 10 exampleCommitted).1
    = Returned (Dec.ofInt (-2)) /\
  Dec.Quo (wholeSecondsDec (time_Sub (BlockTime exampleCommitted) (TimeOfCreation examplePool)))
          (Dec.ofInt 2) = Some (Dec.ofInt 5) /\
  TickIncentivizedLiquidityRecords <$>
    ticks (crossTick wholeSecondsDec poolRecordsByPointer 1 10 exampleCommitted).2 !! (1, 10)
    = Some [ {| ID := 1;
                IncentivizedLiquidityGross := Dec.ofInt 2;
                IncentivizedLiquidityNet := Dec.ofInt (-2);
                SecondsPerIncentivizedLiquidityOutside := 0 |} ].
Proof.
  assert (crossTick wholeSecondsDec poolRecordsByPointer 1 10 exampleCommitted
          = (Returned (Dec.ofInt (-2)),
             (crossTick wholeSecondsDec poolRecordsByPointer 1 10 exampleCommitted).2))
    as Hcross by (destruct poolRecordsByPointer; vm_compute; reflexivity).
  split; [reflexivity|]. split; [by rewrite Hcross|]. split; [reflexivity|].
  by rewrite (crossTick_tick_records_unchanged _ _ _ _ _ _ _ Hcross).
Qed.

(** C3 (code bug): in the same crossing the pool's accumulator stands at 0
    before and at 0 after, not at 0 + 5: with a slice of values the sum is
    assigned to a copy, with a slice of pointers the value added is the
    tick's stored 0, not the fresh quotient. *)
Theorem crossTick_leaves_global_accumulator (poolRecordsByPointer : bool) :
  PoolIncentivizedLiquidityRecords <$> pools exampleCommitted !! 1
    = Some [ {| PoolRecordID := 1; SecondsPerIncentivizedLiquidityGlobal := 0 |} ] /\
  (crossTick wholeSecondsDec poolRecordsByPointer 1 10 exampleCommitted).1
    = Returned (Dec.ofInt (-2)) /\
  Dec.Quo (wholeSecondsDec (time_Sub (BlockTime exampleCommitted) (TimeOfCreation examplePool)))
          (Dec.ofInt 2) = Some (Dec.ofInt 5) /\
  PoolIncentivizedLiquidityRecords <$>
    pools (crossTick wholeSecondsDec poolRecordsByPointer 1 10 exampleCommitted).2 !! 1
    = Some [ {| PoolRecordID := 1; SecondsPerIncentivizedLiquidityGlobal := 0 |} ].
Proof.
  assert (crossTick wholeSecondsDec poolRecordsByPointer 1 10 exampleCommitted
          = (Returned (Dec.ofInt (-2)),
             (crossTick wholeSecondsDec poolRecordsByPointer 1 10 exampleCommitted).2))
    as Hcross by (destruct poolRecordsByPointer; vm_compute; reflexivity).
  split; [reflexivity|]. split; [by rewrite Hcross|]. split; [reflexivity|].
  destruct poolRecordsByPointer; vm_compute; reflexivity.
Qed.

(** C4 (code bug): liquidity committed to no incentive leaves on tick 10 a
    record with incentivized liquidity 0, as [initOrUpdateTick] creates
    it; crossing that tick panics in [Quo] and writes nothing. *)
Theorem crossTick_panics_on_zero_incentivized_liquidity (poolRecordsByPointer : bool) :
  TickIncentivizedLiquidityRecords <$> ticks exampleUncommitted !! (1, 10)
    = Some [ {| ID := 1;
                IncentivizedLiquidityGross := 0;
                IncentivizedLiquidityNet := 0;
                SecondsPerIncentivizedLiquidityOutside := 0 |} ] /\
  crossTick wholeSecondsDec poolRecordsByPointer 1 10 exampleUncommitted
    = (Panicked, exampleUncommitted).
Proof.
  split; [reflexivity|].
  eapply crossTick_zero_gross_panics with (pool := examplePool).
  - reflexivity.
  - reflexivity.
  - vm_compute. apply list_elem_of_here.
  - reflexivity.
Qed.

(** C7 (code bug): tick 10 holds the record of incentive 1 and the pool has
    since gained incentive 2. [initOrUpdateTick] does not extend the tick's
    list: it panics on [TickIncentivizedLiquidityRecords[1]], out of
    range, and writes nothing. *)
Theorem initOrUpdateTick_panics_when_pool_incentives_grew :
  ID <$> TickIncentivizedLiquidityRecords (tickOrZero exampleGrown 1 10) = [1] /\
  (fun pool => PoolRecordID <$> PoolIncentivizedLiquidityRecords pool)
    <$> pools exampleGrown !! 1 = Some [1; 2] /\
  initOrUpdateTick 1 10 (Dec.ofInt 2) true [1] exampleGrown = (Panicked, exampleGrown).
Proof.
  split; [reflexivity|]. split; [reflexivity|].
  eapply initOrUpdateTick_grown_panics; [reflexivity|reflexivity|].
  vm_compute. lia.
Qed.

(** * Further properties of tick.go *)

(** ** The tick store *)

(** X1: a tick written by [SetTickInfo] is what [getTickInfo] reads back at
    that key when the pool exists and every decimal of the tick unmarshals
    (at most 256 bits); a tick with a larger decimal is written all the
    same and reading it back fails with the decode error; and reading any
    other key gives what it gave before the write. *)
Theorem SetTickInfo_then_getTickInfo (s : State) (poolId tickIndex : Z)
    (tickInfo : TickInfo) (poolId' tickIndex' : Z) :
  (is_Some (pools s !! poolId) -> tickUnmarshals tickInfo = true ->
   getTickInfo poolId tickIndex (SetTickInfo poolId tickIndex tickInfo s).2
   = (Returned tickInfo, (SetTickInfo poolId tickIndex tickInfo s).2)) /\
  (is_Some (pools s !! poolId) -> tickUnmarshals tickInfo = false ->
   getTickInfo poolId tickIndex (SetTickInfo poolId tickIndex tickInfo s).2
   = (Failed UnmarshalError, (SetTickInfo poolId tickIndex tickInfo s).2)) /\
  ((poolId', tickIndex') <> (poolId, tickIndex) ->
   (getTickInfo poolId' tickIndex' (SetTickInfo poolId tickIndex tickInfo s).2).1
   = (getTickInfo poolId' tickIndex' s).1).
Proof.
  assert (tickOrZero (SetTickInfo poolId tickIndex tickInfo s).2 poolId tickIndex
          = tickInfo) as Hread.
  { unfold tickOrZero. simpl. by rewrite lookup_insert_eq. }
  split; [|split].
  - intros [pool Hp] Hd.
    rewrite (getTickInfo_Some _ _ _ pool) by (by rewrite ?Hread).
    by rewrite Hread.
  - intros [pool Hp] Hd.
    by rewrite (getTickInfo_undecodable _ _ _ pool) by (by rewrite ?Hread).
  - intros Hne. unfold getTickInfo, poolExists. simpl.
    rewrite lookup_insert_ne by done.
    destruct (bool_decide _); simpl; [|done].
    destruct (ticks s !! (poolId', tickIndex')); [|done].
    by destruct (tickUnmarshals _).
Qed.

Lemma SetTickInfo_then_getTickInfo_witness :
  getTickInfo 1 10 (SetTickInfo 1 10 (tickOrZero exampleCommitted 1 10) exampleGenesis).2
  = (Returned (tickOrZero exampleCommitted 1 10),
     (SetTickInfo 1 10 (tickOrZero exampleCommitted 1 10) exampleGenesis).2).
Proof.
  apply (proj1 (SetTickInfo_then_getTickInfo exampleGenesis 1 10
                  (tickOrZero exampleCommitted 1 10) 1 10)).
  - vm_compute. eauto.
  - vm_compute. reflexivity.
Defined.

(** The decode error is within reach of the module's own writes: a tick
    that [initOrUpdateTick] wrote with a liquidity of 2^256, a decimal of
    257 bits that [Add] accepts, does not decode; reading it back, crossing
    it and updating it again all return the decode error. *)
Lemma oversized_tick_does_not_decode :
  let s := (initOrUpdateTick 1 10 (2 ^ 256) false [] exampleGenesis).2 in
  (initOrUpdateTick 1 10 (2 ^ 256) false [] exampleGenesis).1 = Returned tt /\
  getTickInfo 1 10 s = (Failed UnmarshalError, s) /\
  crossTick wholeSecondsDec false 1 10 s = (Failed UnmarshalError, s) /\
  initOrUpdateTick 1 10 (Dec.ofInt 1) false [] s = (Failed UnmarshalError, s).
Proof. vm_compute. repeat split; reflexivity. Qed.

(** ** [initOrUpdateTick] *)

(** The four ways a call can end: an error (no pool, or a stored tick that
    does not decode) or a panic with the store as it was, or success with
    the one tick written. *)
Lemma initOrUpdateTick_cases poolId tickIndex liquidityIn upper ids s :
  (pools s !! poolId = None /\
   initOrUpdateTick poolId tickIndex liquidityIn upper ids s
     = (Failed (PoolNotFoundError poolId), s)) \/
  (is_Some (pools s !! poolId) /\
   tickUnmarshals (tickOrZero s poolId tickIndex) = false /\
   initOrUpdateTick poolId tickIndex liquidityIn upper ids s
     = (Failed UnmarshalError, s)) \/
  (is_Some (pools s !! poolId) /\
   tickUnmarshals (tickOrZero s poolId tickIndex) = true /\
   initOrUpdateTick poolId tickIndex liquidityIn upper ids s = (Panicked, s)) \/
  (exists tickInfo,
     is_Some (pools s !! poolId) /\
     tickUnmarshals (tickOrZero s poolId tickIndex) = true /\
     initOrUpdateTick poolId tickIndex liquidityIn upper ids s
       = (Returned tt, setTicks s (<[(poolId, tickIndex) := tickInfo]> (ticks s)))).
Proof.
  destruct (pools s !! poolId) as [pool|] eqn:Hp.
  2:{ left. split; [done|]. unfold initOrUpdateTick.
      by rewrite (poolExists_None _ _ Hp). }
  right. unfold initOrUpdateTick.
  rewrite (poolExists_Some _ _ _ Hp). simpl.
  destruct (tickUnmarshals (tickOrZero s poolId tickIndex)) eqn:Hd.
  2:{ left. unfold bind. by rewrite (getTickInfo_undecodable _ _ _ _ Hp Hd). }
  right. read_tick_and_pool Hp Hd.
  destruct (AddLiquidity _ liquidityIn); simpl; [|by left].
  destruct (if upper then _ else _); simpl; [|by left].
  destruct (reconcileTickRecords _ _); simpl; [|by left].
  destruct (updateCommittedRecords _ _ _ _ _); simpl; [|by left].
  right. unfold SetTickInfo. eauto.
Qed.

(** X2: [initOrUpdateTick] returns an error in exactly two cases, each
    with the store left as it was: [PoolNotFoundError] for the given id
    when the pool does not exist, and the decode error of [getTickInfo]
    when the pool exists and the stored tick does not unmarshal. *)
Theorem initOrUpdateTick_error_cases (poolId tickIndex : Z) (liquidityIn : Dec)
    (upper : bool) (incentiveIDsCommittedTo : list Z) (s : State) :
  (pools s !! poolId = None ->
   initOrUpdateTick poolId tickIndex liquidityIn upper incentiveIDsCommittedTo s
   = (Failed (PoolNotFoundError poolId), s)) /\
  (is_Some (pools s !! poolId) ->
   tickUnmarshals (tickOrZero s poolId tickIndex) = false ->
   initOrUpdateTick poolId tickIndex liquidityIn upper incentiveIDsCommittedTo s
   = (Failed UnmarshalError, s)) /\
  (forall e s',
     initOrUpdateTick poolId tickIndex liquidityIn upper incentiveIDsCommittedTo s
     = (Failed e, s') ->
     s' = s /\
     ((pools s !! poolId = None /\ e = PoolNotFoundError poolId) \/
      (is_Some (pools s !! poolId) /\
       tickUnmarshals (tickOrZero s poolId tickIndex) = false /\
       e = UnmarshalError))).
Proof.
  destruct (initOrUpdateTick_cases poolId tickIndex liquidityIn upper
              incentiveIDsCommittedTo s)
    as [[Hp H]|[(Hp & Hd & H)|[(Hp & Hd & H)|(ti & Hp & Hd & H)]]];
    rewrite H; (split; [intros Hnone|split; [intros Hsome Hbad|intros e s' Heq]]);
    try done; try congruence;
    try (destruct Hp; congruence);
    try (destruct Hsome; congruence).
  - inversion Heq; subst. auto.
  - inversion Heq; subst. split; [done|]. right. auto.
Qed.

Lemma initOrUpdateTick_error_cases_witness :
  initOrUpdateTick 2 10 (Dec.ofInt 2) true [1] exampleGenesis
  = (Failed (PoolNotFoundError 2), exampleGenesis).
Proof.
  apply (proj1 (initOrUpdateTick_error_cases 2 10 (Dec.ofInt 2) true [1]
                  exampleGenesis)).
  vm_compute. reflexivity.
Defined.

(** X3: however a call of [initOrUpdateTick] ends, it leaves the pools, the
    positions, the block time and every other tick as they were; unless it
    returns successfully it leaves the whole store as it was. *)
Theorem initOrUpdateTick_writes_one_tick (poolId tickIndex : Z) (liquidityIn : Dec)
    (upper : bool) (incentiveIDsCommittedTo : list Z) (s : State) :
  forall outcome s',
    initOrUpdateTick poolId tickIndex liquidityIn upper incentiveIDsCommittedTo s
    = (outcome, s') ->
    pools s' = pools s /\ positions s' = positions s /\ BlockTime s' = BlockTime s /\
    (forall key, key <> (poolId, tickIndex) -> ticks s' !! key = ticks s !! key) /\
    (outcome <> Returned tt -> s' = s).
Proof.
  intros outcome s' H.
  destruct (initOrUpdateTick_cases poolId tickIndex liquidityIn upper
              incentiveIDsCommittedTo s)
    as [[_ H']|[(_ & _ & H')|[(_ & _ & H')|(ti & _ & _ & H')]]];
    rewrite H' in H; inversion H; subst; clear H; simpl; repeat split; try done.
  intros key Hne. by rewrite lookup_insert_ne.
Qed.

Lemma initOrUpdateTick_writes_one_tick_witness :
  ticks (initOrUpdateTick 1 10 (Dec.ofInt 2) true [1] exampleCommitted).2 !! (1, -10)
  = ticks exampleCommitted !! (1, -10).
Proof.
  eapply (initOrUpdateTick_writes_one_tick 1 10 (Dec.ofInt 2) true [1] exampleCommitted).
  - apply surjective_pairing.
  - vm_compute. discriminate.
Defined.

(** X4: after a successful call the tick's [LiquidityGross] is the stored
    one plus the signed delta, at a lower and at an upper boundary alike,
    and its [SecondsInactive] is the pool's age at the block time when the
    tick had neither gross nor net liquidity, the stored value otherwise. *)
Theorem initOrUpdateTick_gross_and_seconds (poolId tickIndex : Z) (liquidityIn : Dec)
    (upper : bool) (incentiveIDsCommittedTo : list Z) (s : State) :
  forall u s',
    initOrUpdateTick poolId tickIndex liquidityIn upper incentiveIDsCommittedTo s
    = (Returned u, s') ->
    exists pool tickInfo',
      pools s !! poolId = Some pool /\
      ticks s' !! (poolId, tickIndex) = Some tickInfo' /\
      LiquidityGross tickInfo'
        = LiquidityGross (tickOrZero s poolId tickIndex) + liquidityIn /\
      SecondsInactive tickInfo'
        = if decide (LiquidityGross (tickOrZero s poolId tickIndex) = 0 /\
                     LiquidityNet (tickOrZero s poolId tickIndex) = 0)
          then time_Sub (BlockTime s) (TimeOfCreation pool)
          else SecondsInactive (tickOrZero s poolId tickIndex).
Proof.
  intros u s' H.
  apply initOrUpdateTick_Returned in H as (pool & reconciled & records & Hp & _ & _ & ->).
  eexists pool, _. split; [done|]. split; [apply lookup_insert_eq|]. simpl.
  split; [done|]. unfold Dec.Equal, Dec.ZeroDec.
  destruct (Z.eqb_spec (LiquidityGross (tickOrZero s poolId tickIndex)) 0);
    destruct (Z.eqb_spec (LiquidityNet (tickOrZero s poolId tickIndex)) 0);
    simpl; case_decide; try done; tauto.
Qed.

Lemma initOrUpdateTick_gross_and_seconds_witness :
  exists pool tickInfo',
    pools exampleGenesis !! 1 = Some pool /\
    ticks (initOrUpdateTick 1 10 (Dec.ofInt 2) true [1] exampleGenesis).2 !! (1, 10)
      = Some tickInfo' /\
    LiquidityGross tickInfo' = LiquidityGross (tickOrZero exampleGenesis 1 10) + Dec.ofInt 2 /\
    SecondsInactive tickInfo'
      = if decide (LiquidityGross (tickOrZero exampleGenesis 1 10) = 0 /\
                   LiquidityNet (tickOrZero exampleGenesis 1 10) = 0)
        then time_Sub (BlockTime exampleGenesis) (TimeOfCreation pool)
        else SecondsInactive (tickOrZero exampleGenesis 1 10).
Proof.
  apply (initOrUpdateTick_gross_and_seconds 1 10 (Dec.ofInt 2) true [1] exampleGenesis tt).
  vm_compute. reflexivity.
Defined.

(** ** The incentive records of a tick *)

Lemma appendNewRecords_app poolRecords :
  forall tickRecords,
    appendNewRecords tickRecords poolRecords
    = tickRecords ++ ((fun record => newTickRecord (PoolRecordID record)) <$> poolRecords).
Proof.
  induction poolRecords as [|record rest IH]; intros tickRecords; simpl.
  - by rewrite app_nil_r.
  - by rewrite IH, <- app_assoc.
Qed.

Lemma updateTickRecord_keeps liquidityIn upper r r' :
  updateTickRecord liquidityIn upper r = Some r' ->
  ID r' = ID r /\
  SecondsPerIncentivizedLiquidityOutside r' = SecondsPerIncentivizedLiquidityOutside r.
Proof.
  unfold updateTickRecord. intros H.
  destruct (AddLiquidity _ _); [|discriminate]. simpl in H.
  destruct (if upper then _ else _); [|discriminate]. simpl in H.
  by inversion H.
Qed.

Lemma updateCommittedRecords_keeps liquidityIn upper ids :
  forall (i : nat) (tickRecords records : list TickIncentivizedLiquidityRecord),
    updateCommittedRecords liquidityIn upper i ids tickRecords = Some records ->
    ID <$> records = ID <$> tickRecords /\
    SecondsPerIncentivizedLiquidityOutside <$> records
    = SecondsPerIncentivizedLiquidityOutside <$> tickRecords.
Proof.
  induction ids as [|incentiveID rest IH]; intros i tickRecords records H; simpl in H.
  - by inversion H.
  - destruct (tickRecords !! i) as [r0|] eqn:Hi; [|discriminate].
    destruct (ID r0 =? incentiveID); [|by eapply IH].
    destruct (updateTickRecord liquidityIn upper r0) as [r0'|] eqn:Hupd; [|discriminate].
    apply updateTickRecord_keeps in Hupd as [Hid Hout].
    apply IH in H as [-> ->]. rewrite !list_fmap_insert, Hid, Hout.
    split; apply list_insert_id; by rewrite list_lookup_fmap, Hi.
Qed.

Lemma reconcileTickRecords_empty pool :
  reconcileTickRecords pool []
  = Some ((fun record => newTickRecord (PoolRecordID record))
            <$> PoolIncentivizedLiquidityRecords pool).
Proof. unfold reconcileTickRecords. simpl. by rewrite appendNewRecords_app. Qed.

(** X5: a successful [initOrUpdateTick] gives a tick without records one
    record per incentive of the pool, in the pool's order and with a zero
    outside accumulator; on a tick that has records it keeps their ids,
    their order and their outside accumulators. *)
Theorem initOrUpdateTick_record_ids (poolId tickIndex : Z) (liquidityIn : Dec)
    (upper : bool) (incentiveIDsCommittedTo : list Z) (s : State) :
  forall u s',
    initOrUpdateTick poolId tickIndex liquidityIn upper incentiveIDsCommittedTo s
    = (Returned u, s') ->
    exists pool tickInfo',
      pools s !! poolId = Some pool /\
      ticks s' !! (poolId, tickIndex) = Some tickInfo' /\
      ID <$> TickIncentivizedLiquidityRecords tickInfo'
        = (if decide (TickIncentivizedLiquidityRecords (tickOrZero s poolId tickIndex) = [])
           then PoolRecordID <$> PoolIncentivizedLiquidityRecords pool
           else ID <$> TickIncentivizedLiquidityRecords (tickOrZero s poolId tickIndex)) /\
      SecondsPerIncentivizedLiquidityOutside <$> TickIncentivizedLiquidityRecords tickInfo'
        = (if decide (TickIncentivizedLiquidityRecords (tickOrZero s poolId tickIndex) = [])
           then (fun _ => 0) <$> PoolIncentivizedLiquidityRecords pool
           else SecondsPerIncentivizedLiquidityOutside
                  <$> TickIncentivizedLiquidityRecords (tickOrZero s poolId tickIndex)).
Proof.
  intros u s' H.
  apply initOrUpdateTick_Returned in H as (pool & reconciled & records & Hp & Hr & Hu & ->).
  apply updateCommittedRecords_keeps in Hu as [Hid Hout].
  eexists pool, _. split; [done|]. split; [apply lookup_insert_eq|]. simpl.
  rewrite Hid, Hout. case_decide as Hold.
  - rewrite Hold, reconcileTickRecords_empty in Hr. inversion Hr; subst.
    rewrite <- !list_fmap_compose. split; by apply list_fmap_ext.
  - by rewrite (reconcileTickRecords_nonempty _ _ _ Hold Hr).
Qed.

Lemma initOrUpdateTick_record_ids_witness :
  exists pool tickInfo',
    pools exampleGrown !! 1 = Some pool /\
    ticks (initOrUpdateTick 1 50 (Dec.ofInt 2) true [1] exampleGrown).2 !! (1, 50)
      = Some tickInfo' /\
    ID <$> TickIncentivizedLiquidityRecords tickInfo'
      = (if decide (TickIncentivizedLiquidityRecords (tickOrZero exampleGrown 1 50) = [])
         then PoolRecordID <$> PoolIncentivizedLiquidityRecords pool
         else ID <$> TickIncentivizedLiquidityRecords (tickOrZero exampleGrown 1 50)) /\
    SecondsPerIncentivizedLiquidityOutside <$> TickIncentivizedLiquidityRecords tickInfo'
      = (if decide (TickIncentivizedLiquidityRecords (tickOrZero exampleGrown 1 50) = [])
         then (fun _ => 0) <$> PoolIncentivizedLiquidityRecords pool
         else SecondsPerIncentivizedLiquidityOutside
                <$> TickIncentivizedLiquidityRecords (tickOrZero exampleGrown 1 50)).
Proof.
  apply (initOrUpdateTick_record_ids 1 50 (Dec.ofInt 2) true [1] exampleGrown tt).
  vm_compute. reflexivity.
Defined.

(** X6: on an existing pool whose stored tick decodes, when
    [incentiveIDsCommittedTo] is longer than the record list the tick has
    after the reconciliation (the pool's list for a tick without records,
    its own otherwise), [initOrUpdateTick] panics, at the latest on the
    index out of range of line 95, and writes nothing. *)
Theorem initOrUpdateTick_panics_on_excess_ids (poolId tickIndex : Z) (liquidityIn : Dec)
    (upper : bool) (incentiveIDsCommittedTo : list Z) (s : State) (pool : Pool) :
  pools s !! poolId = Some pool ->
  tickUnmarshals (tickOrZero s poolId tickIndex) = true ->
  (length (if decide (TickIncentivizedLiquidityRecords (tickOrZero s poolId tickIndex) = [])
           then PoolRecordID <$> PoolIncentivizedLiquidityRecords pool
           else ID <$> TickIncentivizedLiquidityRecords (tickOrZero s poolId tickIndex))
   < length incentiveIDsCommittedTo)%nat ->
  initOrUpdateTick poolId tickIndex liquidityIn upper incentiveIDsCommittedTo s
  = (Panicked, s).
Proof.
  intros Hp Hd Hlen.
  destruct (initOrUpdateTick_cases poolId tickIndex liquidityIn upper
              incentiveIDsCommittedTo s)
    as [[Hn _]|[(_ & Hbad & _)|[(_ & _ & H)|(ti & _ & _ & H)]]];
    [congruence|congruence|done|exfalso].
  apply initOrUpdateTick_Returned in H as (pool' & reconciled & records & Hp' & Hr & Hu & _).
  assert (pool' = pool) as -> by congruence.
  apply updateCommittedRecords_lookup in Hu as (_ & Hbound & _).
  case_decide as Hold.
  - rewrite Hold, reconcileTickRecords_empty in Hr. inversion Hr; subst.
    rewrite !length_fmap in *. lia.
  - rewrite (reconcileTickRecords_nonempty _ _ _ Hold Hr) in Hbound.
    rewrite length_fmap in Hlen. lia.
Qed.

Lemma initOrUpdateTick_panics_on_excess_ids_witness :
  initOrUpdateTick 1 10 (Dec.ofInt 2) true [1; 2] exampleGenesis = (Panicked, exampleGenesis).
Proof.
  apply (initOrUpdateTick_panics_on_excess_ids 1 10 (Dec.ofInt 2) true [1; 2]
           exampleGenesis examplePool).
  - reflexivity.
  - reflexivity.
  - vm_compute. lia.
Defined.

Lemma tickOrZero_written (s : State) (poolId tickIndex : Z) (tickInfo : TickInfo)
    (m : gmap (Z * Z) TickInfo) :
  tickOrZero (setTicks s (<[(poolId, tickIndex) := tickInfo]> m)) poolId tickIndex = tickInfo.
Proof. unfold tickOrZero. simpl. by rewrite lookup_insert_eq. Qed.

(** X7: two successful calls on the same boundary add up: the tick's gross
    liquidity has grown by both deltas and its net liquidity has moved by
    both, so a delta followed by its opposite restores both. *)
Theorem initOrUpdateTick_twice (poolId tickIndex : Z) (delta1 delta2 : Dec) (upper : bool)
    (ids1 ids2 : list Z) (s : State) :
  forall u1 s1 u2 s2,
    initOrUpdateTick poolId tickIndex delta1 upper ids1 s = (Returned u1, s1) ->
    initOrUpdateTick poolId tickIndex delta2 upper ids2 s1 = (Returned u2, s2) ->
    LiquidityGross (tickOrZero s2 poolId tickIndex)
      = LiquidityGross (tickOrZero s poolId tickIndex) + (delta1 + delta2) /\
    LiquidityNet (tickOrZero s2 poolId tickIndex)
      = if upper then LiquidityNet (tickOrZero s poolId tickIndex) - (delta1 + delta2)
        else LiquidityNet (tickOrZero s poolId tickIndex) + (delta1 + delta2).
Proof.
  intros u1 s1 u2 s2 H1 H2.
  apply initOrUpdateTick_Returned in H1 as (pool1 & rec1 & recs1 & _ & _ & _ & ->).
  apply initOrUpdateTick_Returned in H2 as (pool2 & rec2 & recs2 & _ & _ & _ & ->).
  repeat (rewrite tickOrZero_written; simpl).
  destruct upper; lia.
Qed.

Lemma initOrUpdateTick_twice_witness :
  LiquidityGross (tickOrZero
    (initOrUpdateTick 1 10 (- Dec.ofInt 2) true [1] exampleCommitted).2 1 10)
  = LiquidityGross (tickOrZero exampleGenesis 1 10) + (Dec.ofInt 2 + - Dec.ofInt 2) /\
  LiquidityNet (tickOrZero
    (initOrUpdateTick 1 10 (- Dec.ofInt 2) true [1] exampleCommitted).2 1 10)
  = LiquidityNet (tickOrZero exampleGenesis 1 10) - (Dec.ofInt 2 + - Dec.ofInt 2).
Proof.
  apply (initOrUpdateTick_twice 1 10 (Dec.ofInt 2) (- Dec.ofInt 2) true [1] [1]
           (initOrUpdateTick 1 (-10) (Dec.ofInt 2) false [1] exampleGenesis).2
           tt exampleCommitted tt).
  - vm_compute. reflexivity.
  - vm_compute. reflexivity.
Defined.

(** ** [crossTick] *)

Lemma globalSecondsLoop_ids byPointer tickRecords poolRecords :
  forall (i : nat) result,
    globalSecondsLoop byPointer tickRecords i poolRecords = Some result ->
    PoolRecordID <$> result = PoolRecordID <$> poolRecords.
Proof.
  induction poolRecords as [|poolRecord rest IH]; intros i result H; simpl in H.
  - by inversion H.
  - destruct (tickRecords !! i); [|discriminate].
    destruct (Dec.Add _ _); [|discriminate].
    destruct (globalSecondsLoop byPointer tickRecords (S i) rest) as [rest'|] eqn:Hrest;
      [|discriminate].
    inversion H; subst. rewrite !fmap_cons, (IH _ _ Hrest). by destruct byPointer.
Qed.

Lemma globalSecondsLoop_out_of_range byPointer tickRecords poolRecords :
  (length tickRecords < length poolRecords)%nat ->
  globalSecondsLoop byPointer tickRecords 0 poolRecords = None.
Proof.
  intros Hlen.
  destruct (globalSecondsLoop byPointer tickRecords 0 poolRecords) as [result|] eqn:H;
    [|done].
  destruct (globalSecondsLoop_reads _ _ _ _ _ H (length tickRecords) Hlen) as [r Hr].
  apply lookup_lt_Some in Hr. simpl in Hr. lia.
Qed.

(** The tick [crossTick] writes. *)
Lemma crossTick_cases secondsDec byPointer poolId tickIndex s :
  (pools s !! poolId = None /\
   crossTick secondsDec byPointer poolId tickIndex s
     = (Failed (PoolNotFoundError poolId), s)) \/
  (is_Some (pools s !! poolId) /\
   tickUnmarshals (tickOrZero s poolId tickIndex) = false /\
   crossTick secondsDec byPointer poolId tickIndex s = (Failed UnmarshalError, s)) \/
  (exists pool,
     pools s !! poolId = Some pool /\
     tickUnmarshals (tickOrZero s poolId tickIndex) = true /\
     let crossed :=
       {| LiquidityGross := LiquidityGross (tickOrZero s poolId tickIndex);
          LiquidityNet := LiquidityNet (tickOrZero s poolId tickIndex);
          SecondsInactive := time_Sub (BlockTime s) (TimeOfCreation pool);
          TickIncentivizedLiquidityRecords :=
            TickIncentivizedLiquidityRecords (tickOrZero s poolId tickIndex) |} in
     match secondsPerLiquidityLoop secondsDec (time_Sub (BlockTime s) (TimeOfCreation pool))
             (TickIncentivizedLiquidityRecords (tickOrZero s poolId tickIndex)) with
     | None => crossTick secondsDec byPointer poolId tickIndex s = (Panicked, s)
     | Some _ =>
         match globalSecondsLoop byPointer
                 (TickIncentivizedLiquidityRecords (tickOrZero s poolId tickIndex)) 0
                 (PoolIncentivizedLiquidityRecords pool) with
         | None =>
             crossTick secondsDec byPointer poolId tickIndex s
             = (Panicked, setTicks s (<[(poolId, tickIndex) := crossed]> (ticks s)))
         | Some poolRecords =>
             crossTick secondsDec byPointer poolId tickIndex s
             = (Returned (LiquidityNet (tickOrZero s poolId tickIndex)),
                setPools (setTicks s (<[(poolId, tickIndex) := crossed]> (ticks s)))
                  (<[poolId := SetPoolIncentivizedLiquidityRecords pool poolRecords]>
                     (pools s)))
         end
     end).
Proof.
  destruct (pools s !! poolId) as [pool|] eqn:Hp.
  2:{ left. split; [done|]. unfold crossTick, bind.
      by rewrite (getTickInfo_None _ _ _ Hp). }
  right.
  destruct (tickUnmarshals (tickOrZero s poolId tickIndex)) eqn:Hd.
  2:{ left. split; [done|]. split; [done|]. unfold crossTick, bind.
      by rewrite (getTickInfo_undecodable _ _ _ _ Hp Hd). }
  right. exists pool. split; [done|]. split; [done|]. simpl.
  unfold crossTick. read_tick_and_pool Hp Hd.
  destruct (secondsPerLiquidityLoop _ _ _) as [[]|]; simpl; [|done].
  by destruct (globalSecondsLoop _ _ _ _).
Qed.

(** X8: a successful [crossTick] returns the [LiquidityNet] stored on the
    tick, keeps the tick's gross and net liquidity, and sets its
    [SecondsInactive] to the pool's age at the block time. *)
Theorem crossTick_returns_liquidityNet (secondsDec : Z -> Dec) (poolRecordsByPointer : bool)
    (poolId tickIndex : Z) (s : State) :
  forall liquidityDelta s',
    crossTick secondsDec poolRecordsByPointer poolId tickIndex s
    = (Returned liquidityDelta, s') ->
    exists pool tickInfo',
      pools s !! poolId = Some pool /\
      liquidityDelta = LiquidityNet (tickOrZero s poolId tickIndex) /\
      ticks s' !! (poolId, tickIndex) = Some tickInfo' /\
      LiquidityGross tickInfo' = LiquidityGross (tickOrZero s poolId tickIndex) /\
      LiquidityNet tickInfo' = LiquidityNet (tickOrZero s poolId tickIndex) /\
      SecondsInactive tickInfo' = time_Sub (BlockTime s) (TimeOfCreation pool).
Proof.
  intros liquidityDelta s' H.
  apply crossTick_Returned in H as (pool & recs & Hp & _ & _ & -> & Ht & _).
  eexists pool, _. split; [done|]. split; [done|].
  rewrite Ht, lookup_insert_eq. by repeat split.
Qed.

Lemma crossTick_returns_liquidityNet_witness :
  exists pool tickInfo',
    pools exampleCommitted !! 1 = Some pool /\
    Dec.ofInt 2 = LiquidityNet (tickOrZero exampleCommitted 1 (-10)) /\
    ticks (crossTick wholeSecondsDec false 1 (-10) exampleCommitted).2 !! (1, -10)
      = Some tickInfo' /\
    LiquidityGross tickInfo' = LiquidityGross (tickOrZero exampleCommitted 1 (-10)) /\
    LiquidityNet tickInfo' = LiquidityNet (tickOrZero exampleCommitted 1 (-10)) /\
    SecondsInactive tickInfo'
      = time_Sub (BlockTime exampleCommitted) (TimeOfCreation pool).
Proof.
  apply (crossTick_returns_liquidityNet wholeSecondsDec false 1 (-10) exampleCommitted).
  vm_compute. reflexivity.
Defined.

(** X9: however a call of [crossTick] ends, it leaves the positions, the
    block time, every other tick and every other pool as they were, and of
    the crossed pool its creation time, tick spacing, current tick, current
    price and the ids of its incentive records; on an error it leaves the
    whole store as it was. *)
Theorem crossTick_frame (secondsDec : Z -> Dec) (poolRecordsByPointer : bool)
    (poolId tickIndex : Z) (s : State) :
  forall outcome s',
    crossTick secondsDec poolRecordsByPointer poolId tickIndex s = (outcome, s') ->
    positions s' = positions s /\ BlockTime s' = BlockTime s /\
    (forall key, key <> (poolId, tickIndex) -> ticks s' !! key = ticks s !! key) /\
    (forall poolId', poolId' <> poolId -> pools s' !! poolId' = pools s !! poolId') /\
    (forall pool, pools s !! poolId = Some pool ->
       exists pool',
         pools s' !! poolId = Some pool' /\
         TimeOfCreation pool' = TimeOfCreation pool /\
         TickSpacing pool' = TickSpacing pool /\
         CurrentTick pool' = CurrentTick pool /\
         CurrentSqrtPrice pool' = CurrentSqrtPrice pool /\
         PoolRecordID <$> PoolIncentivizedLiquidityRecords pool'
           = PoolRecordID <$> PoolIncentivizedLiquidityRecords pool) /\
    (forall e, outcome = Failed e -> s' = s).
Proof.
  intros outcome s' H.
  destruct (crossTick_cases secondsDec poolRecordsByPointer poolId tickIndex s)
    as [[Hp H']|[(Hp & _ & H')|(pool & Hp & _ & H')]].
  { rewrite H' in H. inversion H; subst. repeat split; try done.
    intros pool Hpool. congruence. }
  { rewrite H' in H. inversion H; subst. repeat split; try done.
    intros pool Hpool. exists pool. by repeat split. }
  simpl in H'.
  destruct (secondsPerLiquidityLoop _ _ _) as [[]|].
  2:{ rewrite H' in H. inversion H; subst. repeat split; try done.
      intros pool0 Hpool. exists pool0. by repeat split. }
  destruct (globalSecondsLoop _ _ _ _) as [poolRecords|] eqn:Hloop;
    rewrite H' in H; inversion H; subst; clear H; simpl.
  - repeat split; try done.
    + intros key Hne. by rewrite lookup_insert_ne.
    + intros poolId' Hne. by rewrite lookup_insert_ne.
    + intros pool0 Hpool. assert (pool0 = pool) as -> by congruence.
      eexists. split; [apply lookup_insert_eq|]. simpl.
      repeat split; try done. by eapply globalSecondsLoop_ids.
  - repeat split; try done.
    + intros key Hne. by rewrite lookup_insert_ne.
    + intros pool0 Hpool. exists pool0. by repeat split.
Qed.

Lemma crossTick_frame_witness :
  ticks (crossTick wholeSecondsDec true 1 10 exampleCommitted).2 !! (1, -10)
  = ticks exampleCommitted !! (1, -10).
Proof.
  eapply (crossTick_frame wholeSecondsDec true 1 10 exampleCommitted).
  - apply surjective_pairing.
  - vm_compute. discriminate.
Defined.

(** X10: on an existing pool whose stored tick decodes, when the tick has
    fewer incentive records than the pool, as a tick that was never
    written has in a pool with an incentive, and the loop of lines 130-132
    passes, [crossTick] panics on the index out of range of line 138 after
    it has written the tick. *)
Theorem crossTick_panics_after_writing_tick (secondsDec : Z -> Dec)
    (poolRecordsByPointer : bool) (poolId tickIndex : Z) (s : State) (pool : Pool) :
  pools s !! poolId = Some pool ->
  tickUnmarshals (tickOrZero s poolId tickIndex) = true ->
  secondsPerLiquidityLoop secondsDec (time_Sub (BlockTime s) (TimeOfCreation pool))
    (TickIncentivizedLiquidityRecords (tickOrZero s poolId tickIndex)) = Some tt ->
  (length (TickIncentivizedLiquidityRecords (tickOrZero s poolId tickIndex))
   < length (PoolIncentivizedLiquidityRecords pool))%nat ->
  crossTick secondsDec poolRecordsByPointer poolId tickIndex s
  = (Panicked,
     setTicks s
       (<[(poolId, tickIndex) :=
            {| LiquidityGross := LiquidityGross (tickOrZero s poolId tickIndex);
               LiquidityNet := LiquidityNet (tickOrZero s poolId tickIndex);
               SecondsInactive := time_Sub (BlockTime s) (TimeOfCreation pool);
               TickIncentivizedLiquidityRecords :=
                 TickIncentivizedLiquidityRecords (tickOrZero s poolId tickIndex) |}]>
          (ticks s))).
Proof.
  intros Hp Hd Hloop Hlen.
  destruct (crossTick_cases secondsDec poolRecordsByPointer poolId tickIndex s)
    as [[Hn _]|[(_ & Hbad & _)|(pool' & Hp' & _ & H)]]; [congruence|congruence|].
  assert (pool' = pool) as -> by congruence. simpl in H.
  by rewrite Hloop, (globalSecondsLoop_out_of_range _ _ _ Hlen) in H.
Qed.

Lemma crossTick_panics_after_writing_tick_witness :
  crossTick wholeSecondsDec false 1 50 exampleGenesis
  = (Panicked,
     setTicks exampleGenesis
       (<[(1, 50) :=
            {| LiquidityGross := LiquidityGross (tickOrZero exampleGenesis 1 50);
               LiquidityNet := LiquidityNet (tickOrZero exampleGenesis 1 50);
               SecondsInactive :=
                 time_Sub (BlockTime exampleGenesis) (TimeOfCreation examplePool);
               TickIncentivizedLiquidityRecords :=
                 TickIncentivizedLiquidityRecords (tickOrZero exampleGenesis 1 50) |}]>
          (ticks exampleGenesis))).
Proof.
  apply (crossTick_panics_after_writing_tick wholeSecondsDec false 1 50
           exampleGenesis examplePool).
  - reflexivity.
  - reflexivity.
  - reflexivity.
  - vm_compute. lia.
Defined.

(** X11: crossing the same tick twice in a block, both with success,
    returns the same net liquidity and leaves the ticks as the first
    crossing left them. *)
Theorem crossTick_twice (secondsDec : Z -> Dec) (poolRecordsByPointer : bool)
    (poolId tickIndex : Z) (s : State) :
  forall r1 s1 r2 s2,
    crossTick secondsDec poolRecordsByPointer poolId tickIndex s = (Returned r1, s1) ->
    crossTick secondsDec poolRecordsByPointer poolId tickIndex s1 = (Returned r2, s2) ->
    r2 = r1 /\ ticks s2 = ticks s1.
Proof.
  intros r1 s1 r2 s2 H1 H2.
  apply crossTick_Returned in H1
    as (pool1 & recs1 & Hp1 & _ & _ & -> & Ht1 & Hpools1 & _ & Htime1).
  apply crossTick_Returned in H2
    as (pool2 & recs2 & Hp2 & _ & _ & -> & Ht2 & _).
  rewrite Hpools1, lookup_insert_eq in Hp2. inversion Hp2; subst pool2; clear Hp2.
  simpl in Ht2.
  assert (tickOrZero s1 poolId tickIndex
          = {| LiquidityGross := LiquidityGross (tickOrZero s poolId tickIndex);
               LiquidityNet := LiquidityNet (tickOrZero s poolId tickIndex);
               SecondsInactive := time_Sub (BlockTime s) (TimeOfCreation pool1);
               TickIncentivizedLiquidityRecords :=
                 TickIncentivizedLiquidityRecords (tickOrZero s poolId tickIndex) |})
    as Hread.
  { unfold tickOrZero at 1. by rewrite Ht1, lookup_insert_eq. }
  rewrite Hread in Ht2 |- *. simpl in *. split; [done|].
  rewrite Ht2, Htime1, Ht1. by rewrite insert_insert_eq.
Qed.

Lemma crossTick_twice_witness :
  Dec.ofInt 2 = Dec.ofInt 2 /\
  ticks (crossTick wholeSecondsDec true 1 (-10)
           (crossTick wholeSecondsDec true 1 (-10) exampleCommitted).2).2
  = ticks (crossTick wholeSecondsDec true 1 (-10) exampleCommitted).2.
Proof.
  apply (crossTick_twice wholeSecondsDec true 1 (-10) exampleCommitted).
  - vm_compute. reflexivity.
  - vm_compute. reflexivity.
Defined.

(** X12: in a pool without incentives, crossing a tick without incentive
    records succeeds whenever the stored tick decodes (its two
    liquidities unmarshal), whether the tick was written before or not:
    it returns the tick's net liquidity, writes the tick with its new
    [SecondsInactive] and leaves the pools as they were. *)
Theorem crossTick_without_incentives (secondsDec : Z -> Dec) (poolRecordsByPointer : bool)
    (poolId tickIndex : Z) (s : State) (pool : Pool) :
  pools s !! poolId = Some pool ->
  tickUnmarshals (tickOrZero s poolId tickIndex) = true ->
  PoolIncentivizedLiquidityRecords pool = [] ->
  TickIncentivizedLiquidityRecords (tickOrZero s poolId tickIndex) = [] ->
  exists s',
    crossTick secondsDec poolRecordsByPointer poolId tickIndex s
    = (Returned (LiquidityNet (tickOrZero s poolId tickIndex)), s') /\
    pools s' = pools s /\
    ticks s' =
      <[(poolId, tickIndex) :=
          {| LiquidityGross := LiquidityGross (tickOrZero s poolId tickIndex);
             LiquidityNet := LiquidityNet (tickOrZero s poolId tickIndex);
             SecondsInactive := time_Sub (BlockTime s) (TimeOfCreation pool);
             TickIncentivizedLiquidityRecords := [] |}]> (ticks s).
Proof.
  intros Hp Hd Hpool Htick.
  destruct (crossTick_cases secondsDec poolRecordsByPointer poolId tickIndex s)
    as [[Hn _]|[(_ & Hbad & _)|(pool' & Hp' & _ & H)]]; [congruence|congruence|].
  assert (pool' = pool) as -> by congruence. simpl in H.
  rewrite Htick, Hpool in H. simpl in H.
  eexists. split; [exact H|]. simpl. split; [|done].
  apply insert_id. rewrite Hp. f_equal.
  destruct pool; simpl in *. by subst.
Qed.

Lemma crossTick_without_incentives_witness :
  exists s',
    crossTick wholeSecondsDec false 1 50 examplePlain
    = (Returned (LiquidityNet (tickOrZero examplePlain 1 50)), s') /\
    pools s' = pools examplePlain /\
    ticks s' =
      <[(1, 50) :=
          {| LiquidityGross := LiquidityGross (tickOrZero examplePlain 1 50);
             LiquidityNet := LiquidityNet (tickOrZero examplePlain 1 50);
             SecondsInactive :=
               time_Sub (BlockTime examplePlain)
                 (TimeOfCreation (SetPoolIncentivizedLiquidityRecords examplePool []));
             TickIncentivizedLiquidityRecords := [] |}]> (ticks examplePlain).
Proof.
  apply (crossTick_without_incentives wholeSecondsDec false 1 50 examplePlain
           (SetPoolIncentivizedLiquidityRecords examplePool [])).
  - reflexivity.
  - reflexivity.
  - reflexivity.
  - reflexivity.
Defined.

(** ** [validateTickRangeIsValid] *)

(** X13: for a tick spacing below 2^63, validation accepts a range exactly
    when the spacing is positive, both ticks are multiples of it, and
    MinTick <= lowerTick < upperTick <= MaxTick. *)
Theorem validateTickRangeIsValid_accepts_iff (MinTick MaxTick tickSpacing lowerTick upperTick : Z) :
  0 <= tickSpacing < 2 ^ 63 ->
  (validateTickRangeIsValid MinTick MaxTick tickSpacing lowerTick upperTick = Returned tt
   <-> 0 < tickSpacing /\ (tickSpacing | lowerTick) /\ (tickSpacing | upperTick) /\
       MinTick <= lowerTick /\ lowerTick < upperTick /\ upperTick <= MaxTick).
Proof.
  intros Hts.
  assert (int64_of_uint64 tickSpacing = tickSpacing) as Hconv.
  { unfold int64_of_uint64. destruct (Z.ltb_spec tickSpacing (2 ^ 63)); lia. }
  destruct (decide (tickSpacing = 0)) as [->|Hnz].
  { split; [discriminate|lia]. }
  rewrite validate_cases by (rewrite Hconv; done).
  assert (spacingDivides tickSpacing lowerTick upperTick
          <-> (tickSpacing | lowerTick) /\ (tickSpacing | upperTick)) as Hdiv.
  { unfold spacingDivides. by rewrite Hconv, !(Z.rem_divide _ _ Hnz). }
  repeat case_decide; split; intros Hgoal; try discriminate; try reflexivity;
    try (exfalso; tauto); try (exfalso; lia).
  repeat split; try tauto; lia.
Qed.

Lemma validateTickRangeIsValid_accepts_iff_witness :
  validateTickRangeIsValid (-887272) 887272 10 84220 86130 = Returned tt
  <-> 0 < 10 /\ (10 | 84220) /\ (10 | 86130) /\
      -887272 <= 84220 /\ 84220 < 86130 /\ 86130 <= 887272.
Proof.
  apply (validateTickRangeIsValid_accepts_iff (-887272) 887272 10 84220 86130). lia.
Defined.

(** X14: the spacing check comes first. Validation panics exactly when
    the spacing is zero, and returns [TickSpacingError] exactly when the
    spacing is not zero and the remainder of one of the ticks by the
    spacing converted to [int64] is not zero, whatever the bounds and the
    order of the ticks; for a spacing below 2^63, where the conversion
    changes nothing, that is exactly when the spacing does not divide one
    of the ticks. *)
Theorem validateTickRangeIsValid_spacing_first
    (MinTick MaxTick tickSpacing lowerTick upperTick : Z) :
  isUint64 tickSpacing ->
  (validateTickRangeIsValid MinTick MaxTick tickSpacing lowerTick upperTick = Panicked
   <-> tickSpacing = 0) /\
  (validateTickRangeIsValid MinTick MaxTick tickSpacing lowerTick upperTick
     = Failed (TickSpacingError lowerTick upperTick tickSpacing)
   <-> tickSpacing <> 0 /\
       (Z.rem lowerTick (int64_of_uint64 tickSpacing) <> 0 \/
        Z.rem upperTick (int64_of_uint64 tickSpacing) <> 0)) /\
  (tickSpacing < 2 ^ 63 ->
   (validateTickRangeIsValid MinTick MaxTick tickSpacing lowerTick upperTick
      = Failed (TickSpacingError lowerTick upperTick tickSpacing)
    <-> tickSpacing <> 0 /\
        ~ ((tickSpacing | lowerTick) /\ (tickSpacing | upperTick)))).
Proof.
  intros Hts.
  destruct (decide (tickSpacing = 0)) as [->|Hnz].
  { repeat split; try done; try tauto; intros; tauto. }
  rewrite validate_cases by (by apply int64_of_uint64_nonzero).
  assert (tickSpacing < 2 ^ 63 ->
          (spacingDivides tickSpacing lowerTick upperTick
           <-> (tickSpacing | lowerTick) /\ (tickSpacing | upperTick))) as Hdiv.
  { intros Hlt. unfold spacingDivides.
    rewrite (int64_of_uint64_small tickSpacing) by (unfold isUint64 in Hts; lia).
    by rewrite !(Z.rem_divide _ _ Hnz). }
  unfold spacingDivides in *.
  repeat case_decide; (split; [|split]);
    try (intros Hlt; specialize (Hdiv Hlt));
    (split; [intros Hgoal|intros Hgoal]);
    try discriminate; try done; try tauto;
    try (split; [done|]; lia).
Qed.

Lemma validateTickRangeIsValid_spacing_first_witness :
  validateTickRangeIsValid (-887272) 887272 10 84222 86129
  = Failed (TickSpacingError 84222 86129 10).
Proof.
  apply (proj2 (proj2 (validateTickRangeIsValid_spacing_first
                         (-887272) 887272 10 84222 86129
                         ltac:(unfold isUint64; lia))) ltac:(lia)).
  split; [lia|]. intros [[k Hk] _]. lia.
Defined.

(** X15: the conversion of the spacing to [int64] wraps: a spacing of
    2^64 - k, for k from 1 to 2^63 - 1, is validated like the spacing k,
    apart from the spacing reported by [TickSpacingError]. *)
Theorem validateTickRangeIsValid_spacing_wraps
    (MinTick MaxTick k lowerTick upperTick : Z) :
  0 < k < 2 ^ 63 ->
  validateTickRangeIsValid MinTick MaxTick (2 ^ 64 - k) lowerTick upperTick
  = match validateTickRangeIsValid MinTick MaxTick k lowerTick upperTick with
    | Failed (TickSpacingError lower upper _) =>
        Failed (TickSpacingError lower upper (2 ^ 64 - k))
    | outcome => outcome
    end.
Proof.
  intros Hk. unfold validateTickRangeIsValid.
  assert (int64_of_uint64 (2 ^ 64 - k) = - k) as ->.
  { unfold int64_of_uint64. destruct (Z.ltb_spec (2 ^ 64 - k) (2 ^ 63)); lia. }
  assert (int64_of_uint64 k = k) as ->.
  { unfold int64_of_uint64. destruct (Z.ltb_spec k (2 ^ 63)); lia. }
  rewrite !Z.rem_opp_r by lia.
  destruct (Z.eqb_spec (- k) 0); [lia|]. destruct (Z.eqb_spec k 0); [lia|].
  repeat (match goal with
          | |- context [if ?b then _ else _] => destruct b
          end; try reflexivity).
Qed.

Lemma validateTickRangeIsValid_spacing_wraps_witness :
  validateTickRangeIsValid (-887272) 887272 (2 ^ 64 - 10) 20 30
  = match validateTickRangeIsValid (-887272) 887272 10 20 30 with
    | Failed (TickSpacingError lower upper _) =>
        Failed (TickSpacingError lower upper (2 ^ 64 - 10))
    | outcome => outcome
    end.
Proof.
  apply (validateTickRangeIsValid_spacing_wraps (-887272) 887272 10 20 30). lia.
Defined.

(** * Properties of cometbft/metrics/metrics.go *)

(** ** Trimming *)

Lemma TrimRight_cons c s cutset :
  TrimRight (String c s) cutset
  = match TrimRight s cutset with
    | EmptyString => if Ascii.eqb c cutset then EmptyString else String c EmptyString
    | trimmed => String c trimmed
    end.
Proof. reflexivity. Qed.

Lemma TrimRight_app_empty a b cutset :
  TrimRight b cutset = EmptyString -> TrimRight (a +:+ b) cutset = TrimRight a cutset.
Proof.
  intros Hb. induction a as [|c a IH]; [done|].
  change (String c a +:+ b) with (String c (a +:+ b)).
  by rewrite !TrimRight_cons, IH.
Qed.

Lemma TrimRight_app_nonempty a b cutset :
  TrimRight b cutset <> EmptyString ->
  TrimRight (a +:+ b) cutset = a +:+ TrimRight b cutset.
Proof.
  intros Hb. induction a as [|c a IH]; [done|].
  change (String c a +:+ b) with (String c (a +:+ b)).
  change (String c a +:+ TrimRight b cutset) with (String c (a +:+ TrimRight b cutset)).
  rewrite TrimRight_cons, IH.
  destruct (a +:+ TrimRight b cutset) eqn:Happ; [|done].
  destruct a; [done|discriminate].
Qed.

Lemma TrimRight_absent s cutset : hasByte cutset s = false -> TrimRight s cutset = s.
Proof.
  induction s as [|c s IH]; [done|]. cbn [hasByte].
  intros [Hc Hs]%orb_false_elim. rewrite TrimRight_cons, (IH Hs), Hc. by destruct s.
Qed.

Lemma hasByte_TrimRight c s cutset :
  hasByte c s = false -> hasByte c (TrimRight s cutset) = false.
Proof.
  induction s as [|c' s IH]; [done|]. cbn [hasByte].
  intros [Hc Hs]%orb_false_elim. specialize (IH Hs). rewrite TrimRight_cons.
  destruct (TrimRight s cutset) eqn:Ht.
  - destruct (Ascii.eqb c' cutset); cbn [hasByte]; [done|]. by rewrite Hc.
  - cbn [hasByte] in *. by rewrite Hc, IH.
Qed.


(** ** The registry *)

Section MetricsProperties.

Variable float64 : Type.
Variable zeroFloat : float64.
Variable addFloat : float64 -> float64 -> float64.
Variable isZeroFloat : float64 -> bool.
Variable sprintf18f : float64 -> string.

Local Abbreviation record := (RecordValue zeroFloat addFloat).
Local Abbreviation report := (GetValues isZeroFloat sprintf18f).

(** X16: after [RecordValue(ip, name, value)] the entry of [ip] and [name]
    holds its previous value, or the zero value when it had none, plus
    [value]; every other entry is as before; and [ip] is the only key the
    call can add. *)
Theorem RecordValue_adds_to_one_entry (ip name : string) (value : float64)
    (m : Metrics float64) :
  valueAt (record ip name value m) ip name
    = Some (addFloat (default zeroFloat (valueAt m ip name)) value) /\
  (forall ip' name', (ip', name') <> (ip, name) ->
     valueAt (record ip name value m) ip' name' = valueAt m ip' name') /\
  dom (values (record ip name value m)) = {[ip]} ∪ dom (values m).
Proof.
  unfold valueAt, RecordValue. simpl. split; [|split].
  - rewrite lookup_insert_eq. simpl. rewrite lookup_insert_eq.
    by destruct (values m !! ip).
  - intros ip' name' Hne. destruct (decide (ip' = ip)) as [->|Hip].
    + rewrite lookup_insert_eq. simpl. rewrite lookup_insert_ne by congruence.
      by destruct (values m !! ip).
    + by rewrite lookup_insert_ne.
  - by rewrite dom_insert_L.
Qed.

(** X17: [GetValues] has an entry for exactly the keys of [values], also
    for one whose values are all zero, and under a key it reports exactly
    the non-zero values, each as its trimmed string. *)
Theorem GetValues_reports_nonzero (m : Metrics float64) :
  dom (report m) = dom (values m) /\
  forall ip name,
    (report m !! ip ≫= fun labels : gmap string string => labels !! name)
    = valueAt m ip name ≫= fun value =>
        if isZeroFloat value then None else Some (formatValue sprintf18f value).
Proof.
  unfold GetValues, valueAt. split; [by rewrite dom_fmap_L|].
  intros ip name. rewrite lookup_fmap.
  destruct (values m !! ip) as [labels|]; simpl; [|done].
  by rewrite lookup_omap.
Qed.

Lemma valueAt_recordInInstance ip name value (instance : option (Metrics float64)) ip' name' :
  (recordInInstance zeroFloat addFloat ip name value instance
     ≫= fun m => valueAt m ip' name')
  = if decide ((ip', name') = (ip, name))
    then Some (addFloat (default zeroFloat (instance ≫= fun m => valueAt m ip name)) value)
    else instance ≫= fun m => valueAt m ip' name'.
Proof.
  unfold recordInInstance.
  destruct (RecordValue_adds_to_one_entry ip name value
              (Instance instance).1) as (Hsame & Hother & _).
  assert ((Instance instance).1 = default (newMetrics float64) instance) as Hinst
    by (by destruct instance).
  assert (forall ip0 name0,
            valueAt (default (newMetrics float64) instance) ip0 name0
            = instance ≫= fun m => valueAt m ip0 name0) as Hread.
  { intros ip0 name0. destruct instance; [done|]. unfold valueAt. simpl.
    by rewrite lookup_empty. }
  rewrite Hinst in Hsame, Hother.
  replace (let '(m, _) := Instance instance in Some (record ip name value m))
    with (Some (record ip name value (default (newMetrics float64) instance)))
    by (by destruct instance).
  simpl. case_decide as Heq.
  - inversion Heq; subst. by rewrite Hsame, Hread.
  - by rewrite Hother, Hread.
Qed.

(** X18: after a list of calls [Instance().RecordValue], from any state of
    the package variable, the entry of [ip] and [name] holds the values
    recorded for them added up in the order of the calls, onto the value
    it had or onto the zero value; an entry nothing was recorded for is as
    before. *)
Theorem recordAll_accumulates (calls : list (string * string * float64))
    (instance : option (Metrics float64)) (ip name : string) :
  (recordAll zeroFloat addFloat calls instance ≫= fun m => valueAt m ip name)
  = match recordedFor ip name calls with
    | [] => instance ≫= fun m => valueAt m ip name
    | recorded =>
        Some (foldl addFloat
                (default zeroFloat (instance ≫= fun m => valueAt m ip name)) recorded)
    end.
Proof.
  revert instance. induction calls as [|[[ip0 name0] value] rest IH]; intros instance.
  - done.
  - unfold recordAll in *. cbn [foldl]. rewrite IH. clear IH.
    unfold recordedFor. cbn [omap list_omap]. simpl.
    rewrite valueAt_recordInInstance.
    case_bool_decide as Hmatch.
    + destruct Hmatch as [-> ->]. rewrite decide_True by done. simpl.
      by destruct (omap _ rest).
    + rewrite decide_False by (intros [= <- <-]; by apply Hmatch). done.
Qed.

(** X19: the rpc [Metrics] never returns an error; after the calls
    [Instance().RecordValue] since the start of the process it reports,
    for [ip] and [name], the trimmed string of the values recorded for
    them added up in order, unless nothing was recorded or the sum is zero;
    and asking again gives the same report. *)
Theorem core_Metrics_reports (calls : list (string * string * float64)) (ip name : string) :
  let answer := core_Metrics isZeroFloat sprintf18f (recordAll zeroFloat addFloat calls None) in
  answer.1.2 = None /\
  (answer.1.1 !! ip ≫= fun labels : gmap string string => labels !! name)
  = match recordedFor ip name calls with
    | [] => None
    | recorded =>
        if isZeroFloat (foldl addFloat zeroFloat recorded) then None
        else Some (formatValue sprintf18f (foldl addFloat zeroFloat recorded))
    end /\
  core_Metrics isZeroFloat sprintf18f answer.2 = answer.
Proof.
  pose proof (recordAll_accumulates calls None ip name) as Hsum.
  unfold core_Metrics.
  destruct (recordAll zeroFloat addFloat calls None) as [m|]; simpl in *.
  - split; [done|]. split; [|done].
    destruct (GetValues_reports_nonzero m) as [_ ->]. rewrite Hsum.
    by destruct (recordedFor ip name calls).
  - split; [done|]. split; [|done].
    destruct (recordedFor ip name calls); [|discriminate].
    unfold GetValues. simpl. by rewrite fmap_empty, lookup_empty.
Qed.

(** X20: when [Sprintf("%.18f", value)] is an integer part, a point and a
    fraction, neither part holding a point, the string reported for
    [value] is the integer part alone if the fraction is all zeros, and
    otherwise the integer part, the point and the fraction without its
    trailing zeros. *)
Theorem formatValue_trims_fraction (value : float64) (integer fraction : string) :
  sprintf18f value = integer +:+ String "."%char fraction ->
  hasByte "."%char integer = false -> hasByte "."%char fraction = false ->
  formatValue sprintf18f value
  = match TrimRight fraction "0"%char with
    | EmptyString => integer
    | digits => integer +:+ String "."%char digits
    end.
Proof.
  intros Hfmt Hint Hfrac. unfold formatValue. rewrite Hfmt.
  assert (TrimRight (String "."%char fraction) "0"%char
          = String "."%char (TrimRight fraction "0"%char)) as Hpoint.
  { rewrite TrimRight_cons. by destruct (TrimRight fraction "0"%char). }
  rewrite TrimRight_app_nonempty by (by rewrite Hpoint). rewrite Hpoint.
  pose proof (hasByte_TrimRight _ _ "0"%char Hfrac) as Hdigits.
  destruct (TrimRight fraction "0"%char) as [|d digits] eqn:Htrim.
  - rewrite TrimRight_app_empty by done. by apply TrimRight_absent.
  - assert (TrimRight (String "."%char (String d digits)) "."%char
            = String "."%char (String d digits)) as Hkeep.
    { rewrite TrimRight_cons, (TrimRight_absent _ _ Hdigits). done. }
    rewrite TrimRight_app_nonempty by (by rewrite Hkeep). by rewrite Hkeep.
Qed.

End MetricsProperties.

Lemma formatValue_trims_fraction_witness :
  formatValue (fun _ : Z => "1.500000000000000000") 0
  = match TrimRight "500000000000000000" "0"%char with
    | EmptyString => "1"
    | digits => "1" +:+ String "."%char digits
    end.
Proof.
  apply (formatValue_trims_fraction Z (fun _ : Z => "1.500000000000000000") 0
           "1" "500000000000000000"); reflexivity.
Defined.

(** * Properties of the test helpers *)

Section MergeConfigs.

Variable error : Type.

Local Abbreviation config := (lpTest error).

Local Ltac merge_fields :=
  unfold orKeep;
  repeat match goal with
         | |- context [match ?x with _ => _ end] => destruct x eqn:?
         end;
  try done; try congruence.

(** X21: [mergeConfigs] never clears a field: whatever the overwrite, a
    non-zero number of [dst] stays non-zero, a non-nil amount, liquidity,
    incentive list or expected error stays non-nil, a true flag stays
    true; and the owner, the current tick and the current price stay as
    they are. *)
Theorem mergeConfigs_never_clears (dst : config) (overwrite : option config) :
  (poolId (mergeConfigs dst overwrite) = 0 -> poolId dst = 0) /\
  (lowerTick (mergeConfigs dst overwrite) = 0 -> lowerTick dst = 0) /\
  (upperTick (mergeConfigs dst overwrite) = 0 -> upperTick dst = 0) /\
  (tickSpacing (mergeConfigs dst overwrite) = 0 -> tickSpacing dst = 0) /\
  (amount0Desired (mergeConfigs dst overwrite) = None -> amount0Desired dst = None) /\
  (amount0Minimum (mergeConfigs dst overwrite) = None -> amount0Minimum dst = None) /\
  (amount0Expected (mergeConfigs dst overwrite) = None -> amount0Expected dst = None) /\
  (amount1Desired (mergeConfigs dst overwrite) = None -> amount1Desired dst = None) /\
  (amount1Minimum (mergeConfigs dst overwrite) = None -> amount1Minimum dst = None) /\
  (amount1Expected (mergeConfigs dst overwrite) = None -> amount1Expected dst = None) /\
  (liquidityAmount (mergeConfigs dst overwrite) = None -> liquidityAmount dst = None) /\
  (incentiveIDsCommittedTo (mergeConfigs dst overwrite) = None ->
   incentiveIDsCommittedTo dst = None) /\
  (expectedError (mergeConfigs dst overwrite) = None -> expectedError dst = None) /\
  (isNotFirstPosition (mergeConfigs dst overwrite) = false ->
   isNotFirstPosition dst = false) /\
  owner (mergeConfigs dst overwrite) = owner dst /\
  currentTick (mergeConfigs dst overwrite) = currentTick dst /\
  currentSqrtP (mergeConfigs dst overwrite) = currentSqrtP dst.
Proof.
  destruct overwrite as [overwrite|]; [|by repeat split].
  simpl. repeat split; try done.
  all: merge_fields.
  all: intros Hzero; rewrite Hzero in *; discriminate.
Qed.

(** X22: merging two overwrites one after the other is merging their
    merge, and merging the same overwrite a second time changes nothing. *)
Theorem mergeConfigs_composes (dst o1 o2 : config) (overwrite : option config) :
  mergeConfigs (mergeConfigs dst (Some o1)) (Some o2)
  = mergeConfigs dst (Some (mergeConfigs o1 (Some o2))) /\
  mergeConfigs (mergeConfigs dst overwrite) overwrite = mergeConfigs dst overwrite.
Proof.
  split.
  - unfold mergeConfigs. simpl. f_equal; merge_fields.
  - destruct overwrite as [ov|]; [|done].
    unfold mergeConfigs. simpl. f_equal; merge_fields.
Qed.

End MergeConfigs.

(** * The sum of net liquidity under the methods of tick.go *)

(** X23: a successful [initOrUpdateTick] moves the sum of net liquidity of
    its pool by the delta, up at a lower boundary and down at an upper
    one, and leaves the sum of every other pool as it was; so the same
    delta applied at a lower and then at an upper boundary of one pool
    leaves every sum as it was. *)
Theorem initOrUpdateTick_moves_netSum (poolId lowerTick upperTick : Z) (liquidityIn : Dec)
    (ids1 ids2 : list Z) (s : State) :
  forall u1 s1 u2 s2,
    initOrUpdateTick poolId lowerTick liquidityIn false ids1 s = (Returned u1, s1) ->
    initOrUpdateTick poolId upperTick liquidityIn true ids2 s1 = (Returned u2, s2) ->
    liquidityNetSum s1 poolId = liquidityNetSum s poolId + liquidityIn /\
    liquidityNetSum s2 poolId = liquidityNetSum s1 poolId - liquidityIn /\
    forall poolId', liquidityNetSum s2 poolId' = liquidityNetSum s poolId'.
Proof.
  intros u1 s1 u2 s2 H1 H2.
  pose proof (fun p => initOrUpdateTick_netSum _ _ _ _ _ _ _ _ p H1) as Hlower.
  pose proof (fun p => initOrUpdateTick_netSum _ _ _ _ _ _ _ _ p H2) as Hupper.
  split; [|split].
  - rewrite Hlower. by rewrite bool_decide_eq_true_2.
  - rewrite Hupper. rewrite bool_decide_eq_true_2 by done. lia.
  - intros poolId'. rewrite Hupper, Hlower. case_bool_decide; lia.
Qed.

Lemma initOrUpdateTick_moves_netSum_witness :
  liquidityNetSum
    (initOrUpdateTick 1 (-10) (Dec.ofInt 2) false [1] exampleGenesis).2 1
  = liquidityNetSum exampleGenesis 1 + Dec.ofInt 2 /\
  liquidityNetSum exampleCommitted 1
  = liquidityNetSum
      (initOrUpdateTick 1 (-10) (Dec.ofInt 2) false [1] exampleGenesis).2 1 - Dec.ofInt 2 /\
  forall poolId', liquidityNetSum exampleCommitted poolId' = liquidityNetSum exampleGenesis poolId'.
Proof.
  apply (initOrUpdateTick_moves_netSum 1 (-10) 10 (Dec.ofInt 2) [1] [1] exampleGenesis
           tt (initOrUpdateTick 1 (-10) (Dec.ofInt 2) false [1] exampleGenesis).2
           tt exampleCommitted).
  - vm_compute. reflexivity.
  - vm_compute. reflexivity.
Defined.

(** X24: however [crossTick] ends, the sum of net liquidity of every pool
    is what it was. *)
Theorem crossTick_keeps_netSum (secondsDec : Z -> Dec) (poolRecordsByPointer : bool)
    (poolId tickIndex : Z) (s : State) :
  forall outcome s' poolId',
    crossTick secondsDec poolRecordsByPointer poolId tickIndex s = (outcome, s') ->
    liquidityNetSum s' poolId' = liquidityNetSum s poolId'.
Proof.
  intros outcome s' poolId' H.
  assert (forall pool,
            liquidityNetSum
              (setTicks s
                 (<[(poolId, tickIndex) :=
                      {| LiquidityGross := LiquidityGross (tickOrZero s poolId tickIndex);
                         LiquidityNet := LiquidityNet (tickOrZero s poolId tickIndex);
                         SecondsInactive := time_Sub (BlockTime s) (TimeOfCreation pool);
                         TickIncentivizedLiquidityRecords :=
                           TickIncentivizedLiquidityRecords
                             (tickOrZero s poolId tickIndex) |}]> (ticks s))) poolId'
            = liquidityNetSum s poolId') as Hwritten.
  { intros pool. unfold liquidityNetSum. simpl. rewrite netFold_insert.
    unfold tickOrZero, addNetOf.
    destruct (ticks s !! (poolId, tickIndex)) as [old|]; simpl;
      case_bool_decide; unfold Dec.ZeroDec; lia. }
  destruct (crossTick_cases secondsDec poolRecordsByPointer poolId tickIndex s)
    as [[_ H']|[(_ & _ & H')|(pool & _ & _ & H')]].
  { rewrite H' in H. by inversion H. }
  { rewrite H' in H. by inversion H. }
  simpl in H'.
  destruct (secondsPerLiquidityLoop _ _ _) as [[]|].
  2:{ rewrite H' in H. by inversion H. }
  destruct (globalSecondsLoop _ _ _ _);
    rewrite H' in H; inversion H; subst; apply (Hwritten pool).
Qed.

Lemma crossTick_keeps_netSum_witness :
  liquidityNetSum (crossTick wholeSecondsDec true 1 10 exampleCommitted).2 1
  = liquidityNetSum exampleCommitted 1.
Proof.
  eapply (crossTick_keeps_netSum wholeSecondsDec true 1 10 exampleCommitted).
  apply surjective_pairing.
Defined.
